(** * The pipeline reconciler of erda, embedded in Rocq

    Source: modules/pipeline/providers/reconciler/pipeline_reconciler.go

    The reconciler is stateful Go code that talks to a store, an event bus
    and several collaborators.  It is embedded here by explicit state
    passing: the reconciler struct and the pipeline the methods receive by
    pointer are records that are threaded through, and everything that leaves
    the process (store writes with their outcome, events, sleeps, spawned
    goroutines, collaborator calls) is appended to a chronological trace.
    Calls to the logger are not part of the trace. *)

From Stdlib Require Import ZArith Lia List.
From stdpp Require Import base strings gmap list.
Import ListNotations.
Local Open Scope string_scope.

(** ** Data model *)

Definition error := string.
Definition Duration := Z.
Definition Time := Z.

(** Go's [(T, error)] results. *)
Inductive result (A : Type) : Type :=
| Ok (a : A)
| Err (e : error).
Arguments Ok {A} a.
Arguments Err {A} e.

Module apistructs.

(** [type PipelineStatus string]; statuses are compared with [==]. *)
Definition PipelineStatus := string.

(** Modelled from the spec: the constants of package apistructs, which is
    not part of the source slice; the spec names the statuses [Running]
    and [StopByUser]. *)
Definition PipelineStatusRunning : PipelineStatus := "Running".
Definition PipelineStatusStopByUser : PipelineStatus := "StopByUser".

End apistructs.
Export apistructs.

Module spec.

Record PipelineTask := mkPipelineTask {
  Name : string;
  TaskStatus : PipelineStatus
}.

Record PipelineBase := mkPipelineBase {
  ID : N;
  Status : PipelineStatus;
  CostTimeSec : Z;
  TimeBegin : option Time;
  TimeEnd : option Time
}.

Record PipelineExtraInfo := mkPipelineExtraInfo {
  Namespace : string;
  CompleteReconcilerTeardown : bool
}.

Record PipelineExtra := mkPipelineExtra {
  Extra : PipelineExtraInfo
}.

(** [spec.Pipeline] embeds [PipelineBase] and [PipelineExtra]. *)
Record Pipeline := mkPipeline {
  Base : PipelineBase;
  PExtra : PipelineExtra
}.

Definition setStatus (p : Pipeline) (s : PipelineStatus) : Pipeline :=
  let b := Base p in
  mkPipeline (mkPipelineBase (ID b) s (CostTimeSec b) (TimeBegin b) (TimeEnd b))
             (PExtra p).

Definition setTimeEnd (p : Pipeline) (t : option Time) : Pipeline :=
  let b := Base p in
  mkPipeline (mkPipelineBase (ID b) (Status b) (CostTimeSec b) (TimeBegin b) t)
             (PExtra p).

Definition setCostTimeSec (p : Pipeline) (c : Z) : Pipeline :=
  let b := Base p in
  mkPipeline (mkPipelineBase (ID b) (Status b) c (TimeBegin b) (TimeEnd b))
             (PExtra p).

Definition setCompleteReconcilerTeardown (p : Pipeline) (v : bool) : Pipeline :=
  mkPipeline (Base p)
             (mkPipelineExtra (mkPipelineExtraInfo (Namespace (Extra (PExtra p))) v)).

End spec.
Export spec.

(** Everything the reconciler does to the outside world, in the order it
    happens.  A store write records the error the store answered with
    ([None] is Go's [nil]). *)
Inductive Effect :=
| UpdatePipelineBaseStatus (id : N) (s : PipelineStatus) (err : option error)
| UpdatePipelineBase (id : N) (b : PipelineBase) (err : option error)
| UpdatePipelineExtraByPipelineID (id : N) (e : PipelineExtra) (err : option error)
| Sleep (d : Duration)
| EmitPipelineInstanceEvent (p : Pipeline) (userID : string)
| GoTriggerNextLoop
| SendTriggerNextLoop
| GoPipelineCounterTotalAdd (p : Pipeline) (n : Z)
| GoPipelineGaugeProcessingAdd (p : Pipeline) (n : Z)
| GoPipelineEndEvent (p : Pipeline)
| AopHandleAfterExec (p : Pipeline) (err : option error)
| PipelineCronCompensate (id : N)
| WaitGC (ns : string) (id : N) (ttl : N)
| ClearReconcilerPipelineContextCaches (id : N)
| ReconcileOneTaskUntilDone (p : Pipeline) (task : PipelineTask).

Definition isStoreWrite (e : Effect) : bool :=
  match e with
  | UpdatePipelineBaseStatus _ _ _
  | UpdatePipelineBase _ _ _
  | UpdatePipelineExtraByPipelineID _ _ _ => true
  | _ => false
  end.

Definition isSuccessfulStoreWrite (e : Effect) : bool :=
  match e with
  | UpdatePipelineBaseStatus _ _ None
  | UpdatePipelineBase _ _ None
  | UpdatePipelineExtraByPipelineID _ _ None => true
  | _ => false
  end.

Definition isEvent (e : Effect) : bool :=
  match e with
  | EmitPipelineInstanceEvent _ _ => true
  | _ => false
  end.

(** The world outside the reconciler: how many store writes and context
    polls have been answered so far, and the trace. *)
Record World := mkWorld {
  store_calls : nat;
  ctx_polls : nat;
  trace : list Effect
}.

Definition emptyWorld : World := mkWorld 0 0 [].

(** ** Code outside the source slice

    The status predicates of apistructs, the reductions of statusutil, the
    cost-time helper and two getters of [spec.Pipeline] are called by the
    reconciler but defined elsewhere: they are parameters. *)
Class Externals := {
  IsEndStatus : PipelineStatus -> bool;
  IsSuccessStatus : PipelineStatus -> bool;
  AfterPipelineQueue : PipelineStatus -> bool;
  CalculatePipelineStatusV2 : list PipelineTask -> PipelineStatus;
  CalculatePipelineTaskAllDone : list PipelineTask -> bool;
  CalculatePipelineCostTimeSec : Pipeline -> Z;
  GetUserID : Pipeline -> string;
  GetResourceGCTTL : Pipeline -> N;
  rutilDefaultRetryInterval : Duration
}.

(** The behaviour of the surroundings during a run: the answer of the store
    to its k-th write, whether the context is done at the k-th poll, and the
    answer of the after-exec hook. *)
Class Environment := {
  store_err : nat -> option error;
  ctx_done : nat -> bool;
  aop_err : Pipeline -> option error
}.

(** ** A state monad over the world; [None] is a loop that ran out of fuel *)

Definition M (A : Type) : Type := World -> option (A * World).

#[global] Instance M_ret : MRet M := fun A (a : A) w => Some (a, w).

#[global] Instance M_bind : MBind M := fun A B (k : A -> M B) (m : M A) w =>
  match m w with
  | Some (a, w') => k a w'
  | None => None
  end.

Definition diverge {A} : M A := fun _ => None.

Definition emit (e : Effect) : M unit :=
  fun w => Some (tt, mkWorld (store_calls w) (ctx_polls w) (trace w ++ [e])).

(** A store write: the store answers, the write and its outcome are
    recorded, the error (or nil) comes back. *)
Definition storeWrite `{Environment} (mk : option error -> Effect) : M (option error) :=
  fun w =>
    let r := store_err (store_calls w) in
    Some (r, mkWorld (S (store_calls w)) (ctx_polls w) (trace w ++ [mk r])).

(** [select { case <-ctx.Done(): ...; default: }] *)
Definition pollCtx `{Environment} : M bool :=
  fun w => Some (ctx_done (ctx_polls w),
                 mkWorld (store_calls w) (S (ctx_polls w)) (trace w)).

(** ** The reconciler *)

(** The internal fields of [defaultPipelineReconciler].  [processingTasks]
    is a [sync.Map] from task names to [struct{}], that is a set of names;
    [cfgRetryInterval] is [pr.r.Cfg.RetryInterval].  The channels appear
    only through the sends recorded in the trace. *)
Record defaultPipelineReconciler := mkReconciler {
  processingTasks : gset string;
  defaultRetryInterval : Duration;
  cfgRetryInterval : Duration;
  calculatedPipelineStatusByAllReconciledTasks : PipelineStatus;
  flagCanceling : bool;
  flagHaveTask : option bool
}.

(** What the read-only collaborators answer at the moment of one call: the
    merger of graph tasks and task rows, the planner, and the store's list
    of task rows. *)
Record Snapshot := mkSnapshot {
  ymlTaskMergeDBTasks : Pipeline -> result (list PipelineTask);
  GetSchedulableTasks : Pipeline -> list PipelineTask -> result (list PipelineTask);
  ListPipelineTasksByPipelineID : N -> result (list PipelineTask)
}.

Section Reconciler.

Context {ext : Externals} {env : Environment}.

Definition NeedReconcile (p : Pipeline) : bool :=
  negb (IsEndStatus (Status (Base p))).

Definition IsReconcileDone (p : Pipeline) : bool :=
  negb (NeedReconcile p).

(** The [for] loop of [PrepareBeforeReconcile]: write, and on failure
    sleep and try again. *)
Fixpoint updateStatusRunningLoop (fuel : nat) (pr : defaultPipelineReconciler)
    (p : Pipeline) : M unit :=
  match fuel with
  | O => diverge
  | S fuel' =>
      err ← storeWrite (UpdatePipelineBaseStatus (ID (Base p)) PipelineStatusRunning);
      match err with
      | Some _ =>
          emit (Sleep (defaultRetryInterval pr));;
          updateStatusRunningLoop fuel' pr p
      | None => mret tt
      end
  end.

(** The deferred [safe.Go] runs when the function returns, on both paths. *)
Definition PrepareBeforeReconcile (fuel : nat) (pr : defaultPipelineReconciler)
    (p : Pipeline) : M Pipeline :=
  if AfterPipelineQueue (Status (Base p)) then
    emit GoTriggerNextLoop;;
    mret p
  else
    updateStatusRunningLoop fuel pr p;;
    let p := setStatus p PipelineStatusRunning in
    emit (EmitPipelineInstanceEvent p (GetUserID p));;
    emit GoTriggerNextLoop;;
    mret p.

(** [sync.Map.LoadOrStore] on a set of names: the new set and [loaded]. *)
Definition LoadOrStore (m : gset string) (k : string) : gset string * bool :=
  if decide (k ∈ m) then (m, true) else ({[ k ]} ∪ m, false).

(** One iteration of the filtering loop. *)
Definition filterStep (acc : list PipelineTask * gset string) (task : PipelineTask)
    : list PipelineTask * gset string :=
  let '(filteredTasks, processing) := acc in
  let '(processing', onProcessing) := LoadOrStore processing (Name task) in
  if negb onProcessing then ((filteredTasks ++ [task])%list, processing')
  else (filteredTasks, processing').

Definition setProcessingTasks (pr : defaultPipelineReconciler) (s : gset string)
    : defaultPipelineReconciler :=
  mkReconciler s (defaultRetryInterval pr) (cfgRetryInterval pr)
    (calculatedPipelineStatusByAllReconciledTasks pr) (flagCanceling pr)
    (flagHaveTask pr).

Definition GetTasksCanBeConcurrentlyScheduled (sn : Snapshot)
    (pr : defaultPipelineReconciler) (p : Pipeline)
    : result (list PipelineTask) * defaultPipelineReconciler :=
  match ymlTaskMergeDBTasks sn p with
  | Err e => (Err e, pr)
  | Ok allTasks =>
      if flagCanceling pr then (Ok [], pr)
      else
        match GetSchedulableTasks sn p allTasks with
        | Err e => (Err e, pr)
        | Ok schedulableTasks =>
            let '(filteredTasks, processing) :=
              fold_left filterStep schedulableTasks ([], processingTasks pr) in
            (Ok filteredTasks, setProcessingTasks pr processing)
        end
  end.

(** The task reconciler is outside the source slice: its run is one entry
    of the trace. *)
Definition ReconcileOneSchedulableTask (pr : defaultPipelineReconciler)
    (p : Pipeline) (task : PipelineTask) : M unit :=
  emit (ReconcileOneTaskUntilDone p task);;
  emit SendTriggerNextLoop.

Definition writeStatusTransition (p : Pipeline) (calculatedPipelineStatus : PipelineStatus)
    : M (option error * Pipeline) :=
  if decide (Status (Base p) = calculatedPipelineStatus) then mret (None, p)
  else
    err ← storeWrite (UpdatePipelineBaseStatus (ID (Base p)) calculatedPipelineStatus);
    match err with
    | Some e => mret (Some e, p)
    | None =>
        let p := setStatus p calculatedPipelineStatus in
        emit (EmitPipelineInstanceEvent p (GetUserID p));;
        mret (None, p)
    end.

Definition UpdateCurrentReconcileStatusIfNecessary (sn : Snapshot)
    (pr : defaultPipelineReconciler) (p : Pipeline) : M (option error * Pipeline) :=
  let calculatedStatusByAllReconciledTasks :=
    calculatedPipelineStatusByAllReconciledTasks pr in
  if IsEndStatus calculatedStatusByAllReconciledTasks then
    writeStatusTransition p calculatedStatusByAllReconciledTasks
  else
    match ymlTaskMergeDBTasks sn p with
    | Err e => mret (Some e, p)
    | Ok allTasks =>
        if negb (CalculatePipelineTaskAllDone allTasks) then mret (None, p)
        else writeStatusTransition p (CalculatePipelineStatusV2 allTasks)
    end.

Definition setFlagHaveTask (pr : defaultPipelineReconciler) (haveTask : bool)
    : defaultPipelineReconciler :=
  mkReconciler (processingTasks pr) (defaultRetryInterval pr) (cfgRetryInterval pr)
    (calculatedPipelineStatusByAllReconciledTasks pr) (flagCanceling pr)
    (Some haveTask).

Definition setCalculatedStatus (pr : defaultPipelineReconciler) (s : PipelineStatus)
    : defaultPipelineReconciler :=
  mkReconciler (processingTasks pr) (defaultRetryInterval pr) (cfgRetryInterval pr)
    s (flagCanceling pr) (flagHaveTask pr).

(** The part of the aggregator that runs under the lock, with the flag
    already memoized: reduction, then the two overrides in order. *)
Definition aggregate (pr : defaultPipelineReconciler) (haveTask : bool)
    (tasks : list PipelineTask) : PipelineStatus :=
  let s := CalculatePipelineStatusV2 tasks in
  let s :=
    if IsSuccessStatus s && bool_decide (length tasks = 0%nat) && haveTask
    then PipelineStatusRunning else s in
  if flagCanceling pr then PipelineStatusStopByUser else s.

(** The loop that copies the listed rows into a slice of pointers keeps
    their order and content; the rows are used as they are listed. *)
Definition calculatePipelineStatusByAllReconciledTasks (sn : Snapshot)
    (pr : defaultPipelineReconciler) (p : Pipeline)
    : option error * defaultPipelineReconciler :=
  let step1 : result (defaultPipelineReconciler * bool) :=
    match flagHaveTask pr with
    | None =>
        match ymlTaskMergeDBTasks sn p with
        | Err e => Err e
        | Ok allTasks =>
            let haveTask := bool_decide (0 < length allTasks)%nat in
            Ok (setFlagHaveTask pr haveTask, haveTask)
        end
    | Some haveTask => Ok (pr, haveTask)
    end in
  match step1 with
  | Err e => (Some e, pr)
  | Ok (pr1, haveTask) =>
      match ListPipelineTasksByPipelineID sn (ID (Base p)) with
      | Err e => (Some e, pr1)
      | Ok tasks => (None, setCalculatedStatus pr1 (aggregate pr1 haveTask tasks))
      end
  end.

Definition CancelReconcile (pr : defaultPipelineReconciler) (p : Pipeline)
    : defaultPipelineReconciler :=
  mkReconciler (processingTasks pr) (defaultRetryInterval pr) (cfgRetryInterval pr)
    (calculatedPipelineStatusByAllReconciledTasks pr) true (flagHaveTask pr).

End Reconciler.

(** ** The retry helper and teardown *)

Module rutil.

(** What one attempt tells the retry helper. *)
Inductive WaitDuration :=
| ContinueWorkingAbort
| ContinueWorkingWithDefaultInterval
| ContinueWorkingWithCustomInterval (d : Duration).

Section ContinueWorking.

Context {env : Environment}.

(** Modelled from the spec: [rutil.ContinueWorking], which is not part of
    the source slice.  It keeps calling the step, sleeping the interval
    the step asks for, until the step signals abort; it honours context
    cancellation by checking the context before every attempt.  The
    step is a Go closure over the pipeline pointer: what one attempt
    changes in the pipeline is what the next attempt sees. *)
Fixpoint ContinueWorking {S : Type} (fuel : nat) (defaultInterval : Duration)
    (f : S -> M (WaitDuration * S)) (s : S) : M S :=
  match fuel with
  | O => diverge
  | Datatypes.S fuel' =>
      done ← pollCtx;
      if (done : bool) then mret s
      else
        r ← f s;
        match fst r with
        | ContinueWorkingAbort => mret (snd r)
        | ContinueWorkingWithDefaultInterval =>
            emit (Sleep defaultInterval);;
            ContinueWorking fuel' defaultInterval f (snd r)
        | ContinueWorkingWithCustomInterval d =>
            emit (Sleep d);;
            ContinueWorking fuel' defaultInterval f (snd r)
        end
  end.

End ContinueWorking.

End rutil.
Export rutil.

Section Teardown.

Context {ext : Externals} {env : Environment}.

(** The closure of the first retry step: update end time. *)
Definition updateEndTime (now : Time) (pr : defaultPipelineReconciler)
    (p : Pipeline) : M (WaitDuration * Pipeline) :=
  match TimeEnd (Base p) with
  | Some _ => mret (ContinueWorkingAbort, p)
  | None =>
      let p := setTimeEnd p (Some now) in
      let p := setCostTimeSec p (CalculatePipelineCostTimeSec p) in
      err ← storeWrite (UpdatePipelineBase (ID (Base p)) (Base p));
      match err with
      | Some _ => mret (ContinueWorkingWithDefaultInterval, p)
      | None => mret (ContinueWorkingAbort, p)
      end
  end.

(** The closure of the second retry step: the after-exec hook. *)
Definition aopAfterExec (p : Pipeline) : M (WaitDuration * Pipeline) :=
  emit (AopHandleAfterExec p (aop_err p));;
  mret (ContinueWorkingAbort, p).

(** The closure of the third retry step: mark teardown. *)
Definition markTeardown (pr : defaultPipelineReconciler) (p : Pipeline)
    : M (WaitDuration * Pipeline) :=
  if CompleteReconcilerTeardown (Extra (PExtra p)) then mret (ContinueWorkingAbort, p)
  else
    let p := setCompleteReconcilerTeardown p true in
    err ← storeWrite (UpdatePipelineExtraByPipelineID (ID (Base p)) (PExtra p));
    match err with
    | Some _ => mret (ContinueWorkingWithCustomInterval (cfgRetryInterval pr), p)
    | None => mret (ContinueWorkingAbort, p)
    end.

(** The steps between the hook and the marker. *)
Definition notifyCollaborators (p : Pipeline) : M unit :=
  emit (PipelineCronCompensate (ID (Base p)));;
  emit (WaitGC (Namespace (Extra (PExtra p))) (ID (Base p)) (GetResourceGCTTL p));;
  emit (ClearReconcilerPipelineContextCaches (ID (Base p))).

Definition spawnMetrics (p : Pipeline) : M unit :=
  emit (GoPipelineCounterTotalAdd p 1);;
  emit (GoPipelineGaugeProcessingAdd p (-1));;
  emit (GoPipelineEndEvent p).

Definition TeardownAfterReconcileDone (fuel : nat) (now : Time)
    (pr : defaultPipelineReconciler) (p : Pipeline) : M Pipeline :=
  p ← ContinueWorking fuel (defaultRetryInterval pr) (updateEndTime now pr) p;
  spawnMetrics p;;
  p ← ContinueWorking fuel (defaultRetryInterval pr) aopAfterExec p;
  notifyCollaborators p;;
  ContinueWorking fuel rutilDefaultRetryInterval (markTeardown pr) p.

End Teardown.

(** ** Runs of the reconciler

    The three methods that assign fields of the reconciler.  The other
    methods ([PrepareBeforeReconcile], [ReconcileOneSchedulableTask],
    [UpdateCurrentReconcileStatusIfNecessary], [TeardownAfterReconcileDone])
    only read it, which their embeddings show by not returning one. *)
Inductive Operation :=
| OpGetTasksCanBeConcurrentlyScheduled (sn : Snapshot) (p : Pipeline)
| OpCalculatePipelineStatusByAllReconciledTasks (sn : Snapshot) (p : Pipeline)
| OpCancelReconcile (p : Pipeline).

Definition isCancel (o : Operation) : bool :=
  match o with
  | OpCancelReconcile _ => true
  | _ => false
  end.

Section Runs.

Context {ext : Externals}.

(** One operation: the reconciler afterwards, and the tasks handed back
    for dispatch (none when the call fails or is not a planning call). *)
Definition runOperation (o : Operation) (pr : defaultPipelineReconciler)
    : defaultPipelineReconciler * list PipelineTask :=
  match o with
  | OpGetTasksCanBeConcurrentlyScheduled sn p =>
      match GetTasksCanBeConcurrentlyScheduled sn pr p with
      | (Ok tasks, pr') => (pr', tasks)
      | (Err _, pr') => (pr', [])
      end
  | OpCalculatePipelineStatusByAllReconciledTasks sn p =>
      (snd (calculatePipelineStatusByAllReconciledTasks sn pr p), [])
  | OpCancelReconcile p => (CancelReconcile pr p, [])
  end.

(** A lifetime: operations in the order they take effect, with every task
    list returned along the way. *)
Fixpoint runOperations (os : list Operation) (pr : defaultPipelineReconciler)
    : defaultPipelineReconciler * list PipelineTask :=
  match os with
  | [] => (pr, [])
  | o :: os' =>
      let '(pr1, out1) := runOperation o pr in
      let '(pr2, out2) := runOperations os' pr1 in
      (pr2, (out1 ++ out2)%list)
  end.

(** How often a name occurs in the task lists handed back. *)
Definition dispatchCount (n : string) (out : list PipelineTask) : nat :=
  count_occ String.string_dec (Name <$> out) n.

End Runs.

(** ** An instance to run the model on

    Modelled from the spec: a status module after the fixed reduction policy
    of the spec (a non-terminal task gives [Running], then [StopByUser], then
    [Failed], else [Success]; the empty list reduces to [Success]), with
    [Success], [Failed] and [StopByUser] terminal and [Queued] the only
    status before the after-queue checkpoint. *)
Module Demo.

Definition isEnd (s : PipelineStatus) : bool :=
  bool_decide (s = "Success") || bool_decide (s = "Failed")
  || bool_decide (s = PipelineStatusStopByUser).

Definition reduce (tasks : list PipelineTask) : PipelineStatus :=
  if existsb (fun t => negb (isEnd (TaskStatus t))) tasks then PipelineStatusRunning
  else if existsb (fun t => bool_decide (TaskStatus t = PipelineStatusStopByUser)) tasks
  then PipelineStatusStopByUser
  else if existsb (fun t => bool_decide (TaskStatus t = "Failed")) tasks then "Failed"
  else "Success".

Definition costTimeSec (p : Pipeline) : Z :=
  match TimeBegin (Base p), TimeEnd (Base p) with
  | Some b, Some e => (e - b)%Z
  | _, _ => (-1)%Z
  end.

#[export] Instance externals : Externals := {|
  IsEndStatus := isEnd;
  IsSuccessStatus := fun s => bool_decide (s = "Success");
  AfterPipelineQueue := fun s => negb (bool_decide (s = "Queued"));
  CalculatePipelineStatusV2 := reduce;
  CalculatePipelineTaskAllDone := forallb (fun t => isEnd (TaskStatus t));
  CalculatePipelineCostTimeSec := costTimeSec;
  GetUserID := fun _ => "user";
  GetResourceGCTTL := fun _ => 1800%N;
  rutilDefaultRetryInterval := 5%Z
|}.

(** A store that fails the writes whose index is in [failing]; the context
    is never done and the hook succeeds. *)
Definition environment (failing : list nat) : Environment := {|
  store_err := fun k =>
    if existsb (Nat.eqb k) failing then Some "store: connection refused" else None;
  ctx_done := fun _ => false;
  aop_err := fun _ => None
|}.

Definition pipeline (s : PipelineStatus) : Pipeline :=
  mkPipeline (mkPipelineBase 1%N s 0%Z (Some 100%Z) None)
             (mkPipelineExtra (mkPipelineExtraInfo "pipeline-1" false)).

Definition task (n : string) (s : PipelineStatus) : PipelineTask :=
  mkPipelineTask n s.

(** The graph declares [declared]; the planner answers [ready]; the store
    holds [rows]. *)
Definition snapshot (declared ready rows : list PipelineTask) : Snapshot :=
  mkSnapshot (fun _ => Ok declared) (fun _ _ => Ok ready) (fun _ => Ok rows).

Definition reconciler (agg : PipelineStatus) (canceling : bool)
    (haveTask : option bool) : defaultPipelineReconciler :=
  mkReconciler ∅ 3%Z 7%Z agg canceling haveTask.

End Demo.

(** ** Vocabulary for the properties *)

Section Outcomes.

Context {ext : Externals} {env : Environment}.

(** The status [UpdateCurrentReconcileStatusIfNecessary] settles on: the
    cached aggregate when that is terminal, otherwise the reduction of the
    merged view when all its tasks are done. *)
Inductive Chosen (sn : Snapshot) (pr : defaultPipelineReconciler) (p : Pipeline)
    : PipelineStatus -> Prop :=
| ChosenAggregate :
    IsEndStatus (calculatedPipelineStatusByAllReconciledTasks pr) = true ->
    Chosen sn pr p (calculatedPipelineStatusByAllReconciledTasks pr)
| ChosenAllDone (allTasks : list PipelineTask) :
    IsEndStatus (calculatedPipelineStatusByAllReconciledTasks pr) = false ->
    ymlTaskMergeDBTasks sn p = Ok allTasks ->
    CalculatePipelineTaskAllDone allTasks = true ->
    Chosen sn pr p (CalculatePipelineStatusV2 allTasks).

(** The ways one call of [UpdateCurrentReconcileStatusIfNecessary] can end:
    the returned error, the pipeline and the world afterwards. *)
Inductive UpdateOutcome (sn : Snapshot) (pr : defaultPipelineReconciler)
    (p : Pipeline) (w : World) : option error -> Pipeline -> World -> Prop :=
| MergerFailed (e : error) :
    IsEndStatus (calculatedPipelineStatusByAllReconciledTasks pr) = false ->
    ymlTaskMergeDBTasks sn p = Err e ->
    UpdateOutcome sn pr p w (Some e) p w
| NotAllDone (allTasks : list PipelineTask) :
    IsEndStatus (calculatedPipelineStatusByAllReconciledTasks pr) = false ->
    ymlTaskMergeDBTasks sn p = Ok allTasks ->
    CalculatePipelineTaskAllDone allTasks = false ->
    UpdateOutcome sn pr p w None p w
| NoChange :
    Chosen sn pr p (Status (Base p)) ->
    UpdateOutcome sn pr p w None p w
| WriteFailed (chosen : PipelineStatus) (e : error) :
    Chosen sn pr p chosen ->
    chosen <> Status (Base p) ->
    store_err (store_calls w) = Some e ->
    UpdateOutcome sn pr p w (Some e) p
      (mkWorld (S (store_calls w)) (ctx_polls w)
         (trace w ++ [UpdatePipelineBaseStatus (ID (Base p)) chosen (Some e)]))
| Written (chosen : PipelineStatus) :
    Chosen sn pr p chosen ->
    chosen <> Status (Base p) ->
    store_err (store_calls w) = None ->
    UpdateOutcome sn pr p w None (setStatus p chosen)
      (mkWorld (S (store_calls w)) (ctx_polls w)
         (trace w ++ [UpdatePipelineBaseStatus (ID (Base p)) chosen None;
                      EmitPipelineInstanceEvent (setStatus p chosen)
                        (GetUserID (setStatus p chosen))])).

End Outcomes.

(** The override of the aggregator as a statement about every status module,
    snapshot, reconciler and pipeline: whenever the aggregator succeeds on
    zero task rows whose reduction is a success status, with the have-task
    flag true, the aggregate it stores is [Running]. *)
Definition aggregates_to_Running_before_first_row : Prop :=
  ∀ (ext : Externals) (sn : Snapshot) (pr pr' : defaultPipelineReconciler)
    (p : Pipeline) (rows : list PipelineTask),
    calculatePipelineStatusByAllReconciledTasks sn pr p = (None, pr') →
    ListPipelineTasksByPipelineID sn (ID (Base p)) = Ok rows →
    length rows = 0%nat →
    IsSuccessStatus (CalculatePipelineStatusV2 rows) = true →
    flagHaveTask pr' = Some true →
    calculatedPipelineStatusByAllReconciledTasks pr' = PipelineStatusRunning.

Definition isPipelineBaseWrite (e : Effect) : bool :=
  match e with
  | UpdatePipelineBase _ _ _ => true
  | _ => false
  end.

Definition isTeardownMarkWrite (e : Effect) : bool :=
  match e with
  | UpdatePipelineExtraByPipelineID _ _ _ => true
  | _ => false
  end.

Section Attempts.

Context {ext : Externals} {env : Environment}.

(** The pipeline after the assignments of the end-time step:
    [p.TimeEnd = &now], then [p.CostTimeSec] from the pipeline so far. *)
Definition ended (now : Time) (p : Pipeline) : Pipeline :=
  setCostTimeSec (setTimeEnd p (Some now))
    (CalculatePipelineCostTimeSec (setTimeEnd p (Some now))).

(** The trace of [n] failed rounds of the loop of [PrepareBeforeReconcile],
    the first of them being the store's write number [start]: the write
    with the store's answer, then the sleep. *)
Fixpoint failedAttempts (pr : defaultPipelineReconciler) (p : Pipeline)
    (start n : nat) : list Effect :=
  match n with
  | O => []
  | S n' =>
      UpdatePipelineBaseStatus (ID (Base p)) PipelineStatusRunning (store_err start)
      :: Sleep (defaultRetryInterval pr)
      :: failedAttempts pr p (S start) n'
  end.

End Attempts.


(** ** The cluster endpoints

    [ListK8SClusters] and [listClusters] of package endpoints.  The bundle
    client and the cluster aggregator are collaborators: what they answer is
    a field of [Endpoints].  [strconv.ParseUint] is the Go library's and is a
    parameter.  [mkResponse] only wraps the response value, which is what the
    embedding returns. *)
Module endpoints.

Record ClusterInfo := mkClusterInfo {
  Name : string
}.

Record ErrorResponse := mkErrorResponse {
  Msg : string
}.

Record Header := mkHeader {
  Success : bool;
  Error : ErrorResponse
}.

Record ClustersData := mkClustersData {
  Ready : list string;
  UnReady : list string
}.

Record K8SClusters := mkK8SClusters {
  RespHeader : Header;
  Data : ClustersData
}.

(** [e.bdl.ListClusters(typ, scopeID)] and [e.SteveAggregator.ListClusters()]. *)
Record Endpoints := mkEndpoints {
  bdlListClusters : string -> N -> result (list ClusterInfo);
  steveListClusters : list string * list string
}.

(** The zero values of the response parts. *)
Definition noError : ErrorResponse := mkErrorResponse "".
Definition noData : ClustersData := mkClustersData [] [].

Definition failure (msg : string) : K8SClusters :=
  mkK8SClusters (mkHeader false (mkErrorResponse msg)) noData.

(** The loop of [listClusters] from the clusters gathered so far. *)
Fixpoint listClustersFrom (e : Endpoints) (scopeID : N) (clusterTypes : list string)
    (clusters : list ClusterInfo) : result (list ClusterInfo) :=
  match clusterTypes with
  | [] => Ok clusters
  | typ :: rest =>
      match bdlListClusters e typ scopeID with
      | Err err => Err ("failed to list " +:+ typ +:+ " clusters, " +:+ err)
      | Ok c => listClustersFrom e scopeID rest (clusters ++ c)%list
      end
  end.

Definition listClusters (e : Endpoints) (scopeID : N) (clusterTypes : list string)
    : result (list ClusterInfo) :=
  listClustersFrom e scopeID clusterTypes [].

(** [clustersInOrg[cluster.Name] = struct{}{}] for every cluster. *)
Definition clusterNames (clusters : list ClusterInfo) : gset string :=
  fold_left (fun (m : gset string) cluster => {[ Name cluster ]} ∪ m) clusters ∅.

(** The two loops that keep the aggregator's clusters found in the map. *)
Definition keepInOrg (clustersInOrg : gset string) (names : list string) : list string :=
  fold_left (fun (acc : list string) cluster =>
               if decide (cluster ∈ clustersInOrg) then (acc ++ [cluster])%list else acc)
            names [].

Section ListK8SClusters.

(** [strconv.ParseUint(s, 10, 64)]: the number, or [None] for an error. *)
Context (ParseUint : string -> option N).

Definition ListK8SClusters (e : Endpoints) (orgid : string) : K8SClusters :=
  match ParseUint orgid with
  | None => failure "failed to get org-id in http header"
  | Some scopeID =>
      match listClusters e scopeID ["k8s"; "edas"] with
      | Err err => failure ("failed to list cluster, " +:+ err)
      | Ok clusters =>
          let clustersInOrg := clusterNames clusters in
          let '(ready, unready) := steveListClusters e in
          mkK8SClusters (mkHeader true noError)
            (mkClustersData (keepInOrg clustersInOrg ready)
                            (keepInOrg clustersInOrg unready))
      end
  end.

End ListK8SClusters.

End endpoints.

Definition isTrigger (e : Effect) : bool :=
  match e with
  | GoTriggerNextLoop | SendTriggerNextLoop => true
  | _ => false
  end.

Definition isHook (e : Effect) : bool :=
  match e with
  | AopHandleAfterExec _ _ => true
  | _ => false
  end.

Section TeardownMiddle.

Context {ext : Externals} {env : Environment}.

(** What teardown does between its first and its last retry step, for the
    pipeline [p] as it is then: the three metrics goroutines, the hook unless
    the context is done at that poll, the compensator, the GC wait and the
    cache clearing. *)
Definition middleEffects (polls : nat) (p : Pipeline) : list Effect :=
  [GoPipelineCounterTotalAdd p 1; GoPipelineGaugeProcessingAdd p (-1);
   GoPipelineEndEvent p]
  ++ (if ctx_done polls then [] else [AopHandleAfterExec p (aop_err p)])
  ++ [PipelineCronCompensate (ID (Base p));
      WaitGC (Namespace (Extra (PExtra p))) (ID (Base p)) (GetResourceGCTTL p);
      ClearReconcilerPipelineContextCaches (ID (Base p))].

End TeardownMiddle.
(** * Properties *)

(** ** At-most-once scheduling *)

Section Scheduling.

Context {ext : Externals}.

Lemma LoadOrStore_spec (m : gset string) (k : string) :
  LoadOrStore m k = (if decide (k ∈ m) then m else {[ k ]} ∪ m, bool_decide (k ∈ m)).
Proof.
  unfold LoadOrStore. destruct (decide (k ∈ m)) as [Hin | Hout].
  - by rewrite bool_decide_eq_true_2.
  - by rewrite bool_decide_eq_false_2.
Qed.

(** The filtering loop appends fresh names only, each once, and records
    them in the processing set, which never shrinks. *)
Lemma filter_loop_spec (ts acc : list PipelineTask) (s : gset string) :
  ∃ new s',
    fold_left filterStep ts (acc, s) = ((acc ++ new)%list, s')
    ∧ NoDup (Name <$> new)
    ∧ (∀ t, t ∈ new → (Name t ∉ s) ∧ (Name t ∈ s'))
    ∧ s ⊆ s'.
Proof.
  revert acc s. induction ts as [| t ts IH]; intros acc s.
  - exists [], s. rewrite app_nil_r. repeat split; [constructor | set_solver..].
  - cbn [fold_left filterStep]. rewrite LoadOrStore_spec.
    destruct (decide (Name t ∈ s)) as [Hin | Hout].
    + rewrite bool_decide_eq_true_2 by done. cbn [negb].
      destruct (IH acc s) as (new & s' & Heq & Hnd & Hnew & Hsub).
      exists new, s'. by rewrite Heq.
    + rewrite bool_decide_eq_false_2 by done. cbn [negb].
      destruct (IH (acc ++ [t])%list ({[ Name t ]} ∪ s))
        as (new & s' & Heq & Hnd & Hnew & Hsub).
      exists (t :: new), s'. rewrite Heq, <- app_assoc. split; [done |].
      split; [| split].
      * rewrite fmap_cons. apply NoDup_cons. split; [| done].
        intros (t' & Hname & Ht')%list_elem_of_fmap.
        pose proof (Hnew t' Ht') as [Hnot _]. set_solver.
      * intros t' [-> | Ht']%elem_of_cons.
        -- split; [done | set_solver].
        -- pose proof (Hnew t' Ht') as [Hnot Hyes]. split; [set_solver | done].
      * set_solver.
Qed.

Lemma GetTasks_spec (sn : Snapshot) (pr : defaultPipelineReconciler) (p : Pipeline) :
  ∃ r pr',
    GetTasksCanBeConcurrentlyScheduled sn pr p = (r, pr')
    ∧ processingTasks pr ⊆ processingTasks pr'
    ∧ flagCanceling pr' = flagCanceling pr
    ∧ ∀ out, r = Ok out →
        NoDup (Name <$> out)
        ∧ ∀ t, t ∈ out → (Name t ∉ processingTasks pr) ∧ (Name t ∈ processingTasks pr').
Proof.
  unfold GetTasksCanBeConcurrentlyScheduled.
  destruct (ymlTaskMergeDBTasks sn p) as [allTasks | e].
  2: { eexists _, _. split; [done |]. repeat split; [done | congruence..]. }
  destruct (flagCanceling pr) eqn:Hc.
  { eexists _, _. split; [done |]. split; [done |]. split; [done |].
    intros out [= <-]. split; [constructor | set_solver]. }
  destruct (GetSchedulableTasks sn p allTasks) as [ready | e].
  2: { eexists _, _. split; [done |]. repeat split; [done | done | congruence..]. }
  destruct (filter_loop_spec ready [] (processingTasks pr))
    as (new & s' & Heq & Hnd & Hnew & Hsub).
  rewrite Heq. cbn [app]. eexists _, _. split; [done |].
  cbn. split; [done |]. split; [done |].
  intros out [= <-]. split; [done |]. exact Hnew.
Qed.

(** Every run hands out names that were not in the processing set at its
    start, each at most once. *)
Lemma runOperations_spec (os : list Operation) (pr : defaultPipelineReconciler) :
  ∃ pr' out,
    runOperations os pr = (pr', out)
    ∧ processingTasks pr ⊆ processingTasks pr'
    ∧ NoDup (Name <$> out)
    ∧ ∀ t, t ∈ out → (Name t ∉ processingTasks pr) ∧ (Name t ∈ processingTasks pr').
Proof.
  revert pr. induction os as [| o os IH]; intros pr.
  - exists pr, []. repeat split; [done | constructor | set_solver..].
  - cbn [runOperations].
    assert (∃ pr1 out1, runOperation o pr = (pr1, out1)
              ∧ processingTasks pr ⊆ processingTasks pr1
              ∧ NoDup (Name <$> out1)
              ∧ ∀ t, t ∈ out1 → (Name t ∉ processingTasks pr) ∧ (Name t ∈ processingTasks pr1))
      as (pr1 & out1 & Hrun & Hsub1 & Hnd1 & Hnew1).
    { destruct o as [sn p | sn p | p]; cbn [runOperation].
      - destruct (GetTasks_spec sn pr p) as (r & pr1 & Heq & Hsub & _ & Hok).
        rewrite Heq. destruct r as [out1 | e].
        + exists pr1, out1. destruct (Hok out1 eq_refl). done.
        + exists pr1, []. repeat split; [done | constructor | set_solver..].
      - eexists _, []. split; [done |].
        repeat split; [| constructor | set_solver..].
        unfold calculatePipelineStatusByAllReconciledTasks.
        repeat case_match; simplify_eq; cbn; done.
      - eexists _, []. repeat split; [done | constructor | set_solver..]. }
    rewrite Hrun. destruct (IH pr1) as (pr2 & out2 & Hrun2 & Hsub2 & Hnd2 & Hnew2).
    rewrite Hrun2. exists pr2, (out1 ++ out2)%list. split; [done |].
    split; [set_solver |]. split.
    + rewrite fmap_app. apply NoDup_app. split; [done |]. split; [| done].
      intros n (t1 & -> & Ht1)%list_elem_of_fmap (t2 & Hn & Ht2)%list_elem_of_fmap.
      pose proof (Hnew1 t1 Ht1) as [_ Hin]. pose proof (Hnew2 t2 Ht2) as [Hnot _].
      rewrite Hn in Hin. done.
    + intros t [Ht | Ht]%elem_of_app.
      * pose proof (Hnew1 t Ht) as [? ?]. split; [done | set_solver].
      * pose proof (Hnew2 t Ht) as [? ?]. split; [set_solver | done].
Qed.

End Scheduling.

(** C1. Over a whole lifetime of the reconciler (any operations in any
    order, starting from any reconciler), every task name occurs at most
    once in the task lists that [GetTasksCanBeConcurrentlyScheduled] returns,
    no returned name was in [processingTasks] at the start, and
    [processingTasks] never loses an entry. *)
Theorem scheduled_at_most_once `{Externals} (os : list Operation)
    (pr : defaultPipelineReconciler) (n : string) :
  (dispatchCount n (snd (runOperations os pr)) ≤ 1)%nat
  ∧ ((n ∈ processingTasks pr) ∧ (dispatchCount n (snd (runOperations os pr)) = 0)%nat
     ∨ (n ∉ processingTasks pr))
  ∧ processingTasks pr ⊆ processingTasks (fst (runOperations os pr)).
Proof.
  destruct (runOperations_spec os pr) as (pr' & out & Hrun & Hsub & Hnd & Hnew).
  rewrite Hrun. cbn [fst snd]. unfold dispatchCount. split; [| split; [| done]].
  - apply NoDup_ListNoDup in Hnd.
    exact (proj1 (NoDup_count_occ String.string_dec _) Hnd n).
  - destruct (decide (n ∈ processingTasks pr)) as [Hin | Hout]; [left | by right].
    split; [done |]. apply count_occ_not_In. rewrite <- list_elem_of_In.
    intros (t & -> & Ht)%list_elem_of_fmap. by destruct (Hnew t Ht).
Qed.

(** ** Cancellation *)

Section Cancellation.

Context {ext : Externals}.

Lemma calculate_keeps_flag (sn : Snapshot) (pr : defaultPipelineReconciler) (p : Pipeline) :
  flagCanceling (snd (calculatePipelineStatusByAllReconciledTasks sn pr p)) = flagCanceling pr
  ∧ processingTasks (snd (calculatePipelineStatusByAllReconciledTasks sn pr p))
    = processingTasks pr.
Proof.
  unfold calculatePipelineStatusByAllReconciledTasks.
  destruct (flagHaveTask pr); [| destruct (ymlTaskMergeDBTasks sn p)];
    try destruct (ListPipelineTasksByPipelineID sn (ID (Base p))); done.
Qed.

Lemma GetTasks_keeps_flag (sn : Snapshot) (pr : defaultPipelineReconciler) (p : Pipeline) :
  flagCanceling (snd (GetTasksCanBeConcurrentlyScheduled sn pr p)) = flagCanceling pr.
Proof.
  unfold GetTasksCanBeConcurrentlyScheduled.
  destruct (ymlTaskMergeDBTasks sn p) as [allTasks |]; [| done].
  destruct (flagCanceling pr) eqn:Hc; [by rewrite <- Hc |].
  destruct (GetSchedulableTasks sn p allTasks) as [ready |]; [| done].
  destruct (fold_left filterStep ready ([], processingTasks pr)). done.
Qed.

Lemma runOperation_flag (o : Operation) (pr : defaultPipelineReconciler) :
  flagCanceling (fst (runOperation o pr)) = flagCanceling pr || isCancel o.
Proof.
  destruct o as [sn p | sn p | p]; cbn [runOperation isCancel].
  - rewrite orb_false_r, <- (GetTasks_keeps_flag sn pr p).
    by destruct (GetTasksCanBeConcurrentlyScheduled sn pr p) as [[] ?].
  - rewrite orb_false_r. apply calculate_keeps_flag.
  - cbn. by rewrite orb_true_r.
Qed.

Lemma runOperations_flag (os : list Operation) (pr : defaultPipelineReconciler) :
  flagCanceling (fst (runOperations os pr)) = flagCanceling pr || existsb isCancel os.
Proof.
  revert pr. induction os as [| o os IH]; intros pr; cbn [runOperations existsb].
  - by rewrite orb_false_r.
  - pose proof (runOperation_flag o pr) as Ho.
    destruct (runOperation o pr) as [pr1 out1]. cbn [fst] in Ho.
    specialize (IH pr1). destruct (runOperations os pr1) as [pr2 out2].
    cbn [fst] in *. by rewrite IH, Ho, orb_assoc.
Qed.

End Cancellation.

(** C9. [CancelReconcile] sets the canceling flag and leaves every other
    field of the reconciler as it was; after any run of operations the flag
    is set exactly when it was set before or the run contains a cancel, so
    no operation ever clears it. *)
Theorem cancel_flag_sticky `{Externals} (pr : defaultPipelineReconciler)
    (p : Pipeline) (os : list Operation) :
  flagCanceling (CancelReconcile pr p) = true
  ∧ processingTasks (CancelReconcile pr p) = processingTasks pr
  ∧ defaultRetryInterval (CancelReconcile pr p) = defaultRetryInterval pr
  ∧ cfgRetryInterval (CancelReconcile pr p) = cfgRetryInterval pr
  ∧ calculatedPipelineStatusByAllReconciledTasks (CancelReconcile pr p)
    = calculatedPipelineStatusByAllReconciledTasks pr
  ∧ flagHaveTask (CancelReconcile pr p) = flagHaveTask pr
  ∧ flagCanceling (fst (runOperations os pr)) = flagCanceling pr || existsb isCancel os
  ∧ flagCanceling (fst (runOperations os (CancelReconcile pr p))) = true.
Proof.
  repeat split; [apply runOperations_flag |].
  by rewrite runOperations_flag.
Qed.

(** ** Persisting the pipeline status *)

Section StatusUpdate.

Context {ext : Externals} {env : Environment}.

Lemma writeStatusTransition_outcome (sn : Snapshot) (pr : defaultPipelineReconciler)
    (p : Pipeline) (w : World) (chosen : PipelineStatus) :
  Chosen sn pr p chosen →
  ∃ r p' w',
    writeStatusTransition p chosen w = Some ((r, p'), w')
    ∧ UpdateOutcome sn pr p w r p' w'.
Proof.
  intros Hc. unfold writeStatusTransition.
  destruct (decide (Status (Base p) = chosen)) as [<- | Hne].
  - eexists _, _, _. split; [done |]. by apply NoChange.
  - unfold mbind, M_bind, storeWrite, emit.
    destruct (store_err (store_calls w)) as [e |] eqn:Hs; cbn.
    + eexists _, _, _. split; [done |]. by apply WriteFailed.
    + rewrite <- app_assoc. cbn [app].
      eexists _, _, _. split; [done |]. by apply Written.
Qed.

(** The method always returns, in one of the five ways of [UpdateOutcome]. *)
Lemma Update_outcome (sn : Snapshot) (pr : defaultPipelineReconciler)
    (p : Pipeline) (w : World) :
  ∃ r p' w',
    UpdateCurrentReconcileStatusIfNecessary sn pr p w = Some ((r, p'), w')
    ∧ UpdateOutcome sn pr p w r p' w'.
Proof.
  unfold UpdateCurrentReconcileStatusIfNecessary.
  destruct (IsEndStatus (calculatedPipelineStatusByAllReconciledTasks pr)) eqn:Hend.
  - apply writeStatusTransition_outcome. by apply ChosenAggregate.
  - destruct (ymlTaskMergeDBTasks sn p) as [allTasks | e] eqn:Hm.
    + destruct (CalculatePipelineTaskAllDone allTasks) eqn:Hdone; cbn [negb].
      * apply writeStatusTransition_outcome. by eapply ChosenAllDone.
      * eexists _, _, _. split; [done |]. by eapply NotAllDone.
    + eexists _, _, _. split; [done |]. by apply MergerFailed.
Qed.

Lemma Chosen_functional (sn : Snapshot) (pr : defaultPipelineReconciler)
    (p : Pipeline) (s1 s2 : PipelineStatus) :
  Chosen sn pr p s1 → Chosen sn pr p s2 → s1 = s2.
Proof. intros [? | a1 ? Hm1 ?] [? | a2 ? Hm2 ?]; congruence. Qed.

Lemma Chosen_same_view (sn : Snapshot) (pr : defaultPipelineReconciler)
    (p q : Pipeline) (s : PipelineStatus) :
  ymlTaskMergeDBTasks sn q = ymlTaskMergeDBTasks sn p →
  Chosen sn pr p s → Chosen sn pr q s.
Proof.
  intros Hv [? | allTasks ? Hm ?]; [by apply ChosenAggregate |].
  eapply ChosenAllDone; [done | by rewrite Hv | done].
Qed.

(** The method as equations, one per way through it. *)
Lemma Update_reaches_write (sn : Snapshot) (pr : defaultPipelineReconciler)
    (p : Pipeline) (w : World) (chosen : PipelineStatus) :
  Chosen sn pr p chosen →
  UpdateCurrentReconcileStatusIfNecessary sn pr p w = writeStatusTransition p chosen w.
Proof.
  unfold UpdateCurrentReconcileStatusIfNecessary.
  intros [Hend | allTasks Hend Hm Hdone]; rewrite Hend; [done |].
  by rewrite Hm, Hdone.
Qed.

Lemma Update_no_change (sn : Snapshot) (pr : defaultPipelineReconciler)
    (p : Pipeline) (w : World) :
  Chosen sn pr p (Status (Base p)) →
  UpdateCurrentReconcileStatusIfNecessary sn pr p w = Some ((None, p), w).
Proof.
  intros Hc. rewrite (Update_reaches_write _ _ _ _ _ Hc).
  unfold writeStatusTransition. by rewrite decide_True.
Qed.

Lemma Update_not_all_done (sn : Snapshot) (pr : defaultPipelineReconciler)
    (p : Pipeline) (w : World) (allTasks : list PipelineTask) :
  IsEndStatus (calculatedPipelineStatusByAllReconciledTasks pr) = false →
  ymlTaskMergeDBTasks sn p = Ok allTasks →
  CalculatePipelineTaskAllDone allTasks = false →
  UpdateCurrentReconcileStatusIfNecessary sn pr p w = Some ((None, p), w).
Proof.
  intros Hend Hm Hdone. unfold UpdateCurrentReconcileStatusIfNecessary.
  by rewrite Hend, Hm, Hdone.
Qed.

Lemma Update_merger_failed (sn : Snapshot) (pr : defaultPipelineReconciler)
    (p : Pipeline) (w : World) (e : error) :
  IsEndStatus (calculatedPipelineStatusByAllReconciledTasks pr) = false →
  ymlTaskMergeDBTasks sn p = Err e →
  UpdateCurrentReconcileStatusIfNecessary sn pr p w = Some ((Some e, p), w).
Proof.
  intros Hend Hm. unfold UpdateCurrentReconcileStatusIfNecessary.
  by rewrite Hend, Hm.
Qed.

Lemma Update_write (sn : Snapshot) (pr : defaultPipelineReconciler)
    (p : Pipeline) (w : World) (chosen : PipelineStatus) :
  Chosen sn pr p chosen →
  chosen ≠ Status (Base p) →
  UpdateCurrentReconcileStatusIfNecessary sn pr p w =
    match store_err (store_calls w) with
    | Some e =>
        Some ((Some e, p),
              mkWorld (S (store_calls w)) (ctx_polls w)
                (trace w ++ [UpdatePipelineBaseStatus (ID (Base p)) chosen (Some e)]))
    | None =>
        Some ((None, setStatus p chosen),
              mkWorld (S (store_calls w)) (ctx_polls w)
                (trace w ++ [UpdatePipelineBaseStatus (ID (Base p)) chosen None;
                             EmitPipelineInstanceEvent (setStatus p chosen)
                               (GetUserID (setStatus p chosen))]))
    end.
Proof.
  intros Hc Hne. rewrite (Update_reaches_write _ _ _ _ _ Hc).
  unfold writeStatusTransition. rewrite decide_False by congruence.
  unfold mbind, M_bind, storeWrite, emit.
  destruct (store_err (store_calls w)); cbn; [done |].
  by rewrite <- app_assoc.
Qed.

End StatusUpdate.

(** C3. [UpdateCurrentReconcileStatusIfNecessary] always returns.  If it
    touches the world or the pipeline at all, then a status was chosen
    (the cached aggregate being terminal, or every task of the merged view
    being done), that status differs from the pipeline's current Status, and
    the first thing done is the store write of that status, with the event
    only after a successful write.  When the cached aggregate is not terminal
    and the merged view has a task that is not done, it returns nil and the
    pipeline and the world (store and event stream) are unchanged; when the
    merged view cannot be had, the error comes back and nothing is changed
    either. *)
Theorem update_only_when_done_and_changed `{Externals} `{Environment}
    (sn : Snapshot) (pr : defaultPipelineReconciler) (p : Pipeline) (w : World) :
  ∃ r p' w' tr,
    UpdateCurrentReconcileStatusIfNecessary sn pr p w = Some ((r, p'), w')
    ∧ trace w' = (trace w ++ tr)%list
    ∧ (tr ≠ [] ∨ p' ≠ p →
       ∃ chosen,
         Chosen sn pr p chosen
         ∧ chosen ≠ Status (Base p)
         ∧ ((∃ e, r = Some e ∧ p' = p
                  ∧ tr = [UpdatePipelineBaseStatus (ID (Base p)) chosen (Some e)])
            ∨ tr = [UpdatePipelineBaseStatus (ID (Base p)) chosen None;
                    EmitPipelineInstanceEvent p' (GetUserID p')]
              ∧ r = None ∧ p' = setStatus p chosen))
    ∧ (∀ allTasks,
         IsEndStatus (calculatedPipelineStatusByAllReconciledTasks pr) = false →
         ymlTaskMergeDBTasks sn p = Ok allTasks →
         CalculatePipelineTaskAllDone allTasks = false →
         r = None ∧ p' = p ∧ w' = w)
    ∧ (∀ e,
         IsEndStatus (calculatedPipelineStatusByAllReconciledTasks pr) = false →
         ymlTaskMergeDBTasks sn p = Err e →
         r = Some e ∧ p' = p ∧ w' = w).
Proof.
  destruct (Update_outcome sn pr p w) as (r & p' & w' & Hrun & Hout).
  exists r, p', w'.
  destruct Hout as [e Hend Hm | allTasks Hend Hm Hdone | Hc | chosen e Hc Hne Hs
                   | chosen Hc Hne Hs].
  - exists []. rewrite app_nil_r. split; [done |]. split; [done |].
    split; [by intros [? | ?] |]. split; [congruence |].
    intros e' _ He'. split; [congruence | done].
  - exists []. rewrite app_nil_r. split; [done |]. split; [done |].
    split; [by intros [? | ?] |]. split; [done | congruence].
  - exists []. rewrite app_nil_r. split; [done |]. split; [done |].
    split; [by intros [? | ?] |].
    inversion Hc as [Hend | allTasks Hend Hm Hdone]; split; congruence.
  - eexists. split; [done |]. split; [done |]. split.
    + intros _. exists chosen. split; [done |]. split; [done |]. left. by exists e.
    + inversion Hc as [Hend | allTasks Hend Hm Hdone]; split; congruence.
  - eexists. split; [done |]. split; [done |]. split.
    + intros _. exists chosen. split; [done |]. split; [done |]. by right.
    + inversion Hc as [Hend | allTasks Hend Hm Hdone]; split; congruence.
Qed.

(** C8. Two calls of [UpdateCurrentReconcileStatusIfNecessary] in a row, on
    the same cached aggregate and a merged view that is the same for both
    calls.  Both return.  If the first returns nil, the second returns nil
    and changes neither the pipeline nor the world: no second store write, no
    second event.  Whatever the first call returns, the two calls together
    make at most one successful store write and emit at most one event. *)
Theorem update_twice_writes_once `{Externals} `{Environment}
    (sn : Snapshot) (pr : defaultPipelineReconciler) (p : Pipeline) (w : World)
    (Hview : ∀ s, ymlTaskMergeDBTasks sn (setStatus p s) = ymlTaskMergeDBTasks sn p) :
  ∃ r1 p1 w1 r2 p2 w2 tr,
    UpdateCurrentReconcileStatusIfNecessary sn pr p w = Some ((r1, p1), w1)
    ∧ UpdateCurrentReconcileStatusIfNecessary sn pr p1 w1 = Some ((r2, p2), w2)
    ∧ (r1 = None → r2 = None ∧ p2 = p1 ∧ w2 = w1)
    ∧ trace w2 = (trace w ++ tr)%list
    ∧ (length (List.filter isSuccessfulStoreWrite tr) ≤ 1)%nat
    ∧ (length (List.filter isEvent tr) ≤ 1)%nat.
Proof.
  destruct (Update_outcome sn pr p w) as (r1 & p1 & w1 & Hrun1 & Hout1).
  enough (∃ r2 p2 w2 tr,
             UpdateCurrentReconcileStatusIfNecessary sn pr p1 w1 = Some ((r2, p2), w2)
             ∧ (r1 = None → r2 = None ∧ p2 = p1 ∧ w2 = w1)
             ∧ trace w2 = (trace w ++ tr)%list
             ∧ (length (List.filter isSuccessfulStoreWrite tr) ≤ 1)%nat
             ∧ (length (List.filter isEvent tr) ≤ 1)%nat)
    as (r2 & p2 & w2 & tr & ?) by by exists r1, p1, w1, r2, p2, w2, tr.
  clear Hrun1.
  destruct Hout1 as [e Hend Hm | allTasks Hend Hm Hdone | Hc | chosen e Hc Hne Hs
                    | chosen Hc Hne Hs].
  - (* the merger failed and fails again *)
    exists (Some e), p, w, []. rewrite app_nil_r.
    rewrite (Update_merger_failed sn pr p w e) by done. cbn. repeat split; done || lia.
  - exists None, p, w, []. rewrite app_nil_r.
    rewrite (Update_not_all_done sn pr p w allTasks) by done. cbn.
    repeat split; done || lia.
  - exists None, p, w, []. rewrite app_nil_r.
    rewrite (Update_no_change sn pr p w) by done. cbn. repeat split; done || lia.
  - (* the write failed: the second call tries again *)
    rewrite (Update_write sn pr p _ chosen) by done. cbn [store_calls ctx_polls trace].
    destruct (store_err (S (store_calls w))) as [e' |].
    + eexists _, _, _, _. split; [done |]. split; [done |].
      cbn [trace]. rewrite <- app_assoc. split; [done |]. cbn. lia.
    + eexists _, _, _, _. split; [done |]. split; [done |].
      cbn [trace]. rewrite <- app_assoc. split; [done |]. cbn. lia.
  - (* the write succeeded: the second call finds the status in place *)
    assert (Hc' : Chosen sn pr (setStatus p chosen) (Status (Base (setStatus p chosen)))).
    { cbn. eapply Chosen_same_view; [apply Hview | done]. }
    rewrite (Update_no_change sn pr (setStatus p chosen) _ Hc').
    eexists _, _, _, _. split; [done |]. split; [done |].
    split; [done |]. cbn. lia.
Qed.

(** C10. When the persist step reaches its store write (a status was chosen
    and differs from the current one) and the store fails it, the method
    returns that error, the pipeline is as before and the only new entry of
    the trace is the failed write: no event.  A later call on the same
    pipeline, whenever it happens, starts with the same write again. *)
Theorem update_write_failure_leaves_state `{Externals} `{Environment}
    (sn : Snapshot) (pr : defaultPipelineReconciler) (p : Pipeline) (w wlater : World)
    (chosen : PipelineStatus) (e : error)
    (Hchosen : Chosen sn pr p chosen)
    (Hdiff : chosen ≠ Status (Base p))
    (Hfail : store_err (store_calls w) = Some e) :
  UpdateCurrentReconcileStatusIfNecessary sn pr p w =
    Some ((Some e, p),
          mkWorld (S (store_calls w)) (ctx_polls w)
            (trace w ++ [UpdatePipelineBaseStatus (ID (Base p)) chosen (Some e)]))
  ∧ ∃ r p' w' rest,
      UpdateCurrentReconcileStatusIfNecessary sn pr p wlater = Some ((r, p'), w')
      ∧ trace w' =
          (trace wlater
           ++ UpdatePipelineBaseStatus (ID (Base p)) chosen (store_err (store_calls wlater))
              :: rest)%list.
Proof.
  split.
  - by rewrite (Update_write sn pr p w chosen), Hfail.
  - rewrite (Update_write sn pr p wlater chosen) by done.
    destruct (store_err (store_calls wlater)); eexists _, _, _, _; split; done.
Qed.

(** ** The status aggregator *)

Section Aggregator.

Context {ext : Externals}.

(** A successful run of the aggregator: the rows were listed, the flag is
    memoized, and the stored aggregate is [aggregate] of them. *)
Lemma calculate_success (sn : Snapshot) (pr pr' : defaultPipelineReconciler)
    (p : Pipeline) :
  calculatePipelineStatusByAllReconciledTasks sn pr p = (None, pr') →
  ∃ rows haveTask,
    ListPipelineTasksByPipelineID sn (ID (Base p)) = Ok rows
    ∧ flagHaveTask pr' = Some haveTask
    ∧ flagCanceling pr' = flagCanceling pr
    ∧ calculatedPipelineStatusByAllReconciledTasks pr' = aggregate pr haveTask rows.
Proof.
  unfold calculatePipelineStatusByAllReconciledTasks.
  destruct (flagHaveTask pr) as [haveTask |] eqn:Hflag.
  - destruct (ListPipelineTasksByPipelineID sn (ID (Base p))) as [rows | e];
      intros [= <-]. by exists rows, haveTask.
  - destruct (ymlTaskMergeDBTasks sn p) as [allTasks | e]; [| done].
    destruct (ListPipelineTasksByPipelineID sn (ID (Base p))) as [rows | e];
      intros [= <-]. by eexists rows, _.
Qed.

End Aggregator.

(** C2. If the canceling flag is set when the aggregator runs (and the
    aggregator gets as far as its overrides, that is, returns nil), the
    stored aggregate is [StopByUser], whatever the task rows reduce to.
    [StopByUser] being an end status, a following call of
    [UpdateCurrentReconcileStatusIfNecessary] that returns nil leaves the
    pipeline with Status [StopByUser]: if the Status was different, the call
    wrote [StopByUser] to the store with success and emitted the event; if it
    was [StopByUser] already, nothing was written. *)
Theorem canceling_persists_StopByUser `{Externals} `{Environment}
    (sn sn' : Snapshot) (pr pr' : defaultPipelineReconciler) (p p' : Pipeline)
    (w w' : World)
    (Hcancel : flagCanceling pr = true)
    (Hagg : calculatePipelineStatusByAllReconciledTasks sn pr p = (None, pr'))
    (Hend : IsEndStatus PipelineStatusStopByUser = true)
    (Hupd : UpdateCurrentReconcileStatusIfNecessary sn' pr' p w = Some ((None, p'), w')) :
  calculatedPipelineStatusByAllReconciledTasks pr' = PipelineStatusStopByUser
  ∧ Status (Base p') = PipelineStatusStopByUser
  ∧ IsEndStatus (Status (Base p')) = true
  ∧ (Status (Base p) ≠ PipelineStatusStopByUser →
     p' = setStatus p PipelineStatusStopByUser
     ∧ trace w' =
         (trace w ++ [UpdatePipelineBaseStatus (ID (Base p)) PipelineStatusStopByUser None;
                      EmitPipelineInstanceEvent p' (GetUserID p')])%list)
  ∧ (Status (Base p) = PipelineStatusStopByUser → p' = p ∧ w' = w).
Proof.
  destruct (calculate_success sn pr pr' p Hagg) as (rows & haveTask & _ & _ & _ & Hcalc).
  unfold aggregate in Hcalc. rewrite Hcancel in Hcalc.
  assert (Hc : Chosen sn' pr' p PipelineStatusStopByUser).
  { rewrite <- Hcalc. apply ChosenAggregate. by rewrite Hcalc. }
  split; [done |].
  destruct (decide (Status (Base p) = PipelineStatusStopByUser)) as [Heq | Hne].
  - rewrite <- Heq in Hc. rewrite (Update_no_change sn' pr' p w Hc) in Hupd.
    injection Hupd as <- <-. rewrite Heq. repeat split; done.
  - rewrite (Update_write sn' pr' p w _ Hc) in Hupd by congruence.
    destruct (store_err (store_calls w)); [done |].
    injection Hupd as <- <-. cbn. repeat split; done.
Qed.

(** C4, as amended.  When the aggregator succeeds on zero task rows whose
    reduction is a success status and the have-task flag is true, the stored
    aggregate is [Running] if the canceling flag is not set and [StopByUser]
    if it is. *)
Theorem early_success_overridden `{Externals}
    (sn : Snapshot) (pr pr' : defaultPipelineReconciler) (p : Pipeline)
    (rows : list PipelineTask)
    (Hagg : calculatePipelineStatusByAllReconciledTasks sn pr p = (None, pr'))
    (Hrows : ListPipelineTasksByPipelineID sn (ID (Base p)) = Ok rows)
    (Hzero : length rows = 0%nat)
    (Hsuccess : IsSuccessStatus (CalculatePipelineStatusV2 rows) = true)
    (Hhave : flagHaveTask pr' = Some true) :
  calculatedPipelineStatusByAllReconciledTasks pr' =
    if flagCanceling pr then PipelineStatusStopByUser else PipelineStatusRunning.
Proof.
  destruct (calculate_success sn pr pr' p Hagg)
    as (rows' & haveTask & Hrows' & Hhave' & _ & Hcalc).
  rewrite Hcalc. unfold aggregate.
  assert (rows' = rows) as -> by congruence.
  assert (haveTask = true) as -> by congruence.
  rewrite Hsuccess, bool_decide_eq_true_2 by done. done.
Qed.

(** ** Before the first loop *)

Section Prepare.

Context {ext : Externals} {env : Environment}.

Lemma failedAttempts_no_event (pr : defaultPipelineReconciler) (p : Pipeline)
    (start n : nat) :
  List.filter isEvent (failedAttempts pr p start n) = [].
Proof. revert start. induction n as [| n IH]; intros start; cbn; [done | apply IH]. Qed.

Lemma failedAttempts_no_success (pr : defaultPipelineReconciler) (p : Pipeline)
    (start n : nat) :
  (∀ k, (k < n)%nat → store_err (start + k) ≠ None) →
  List.filter isSuccessfulStoreWrite (failedAttempts pr p start n) = [].
Proof.
  revert start. induction n as [| n IH]; intros start Hfail; cbn; [done |].
  pose proof (Hfail 0%nat ltac:(lia)) as H0. rewrite Nat.add_0_r in H0.
  destruct (store_err start); [| done]. apply IH.
  intros k Hk. replace (S start + k)%nat with (start + S k)%nat by lia.
  apply Hfail. lia.
Qed.

(** With [n] failures before the first success, the loop needs more than
    [n] rounds and then ends right after the successful write. *)
Lemma updateStatusRunningLoop_succeeds (pr : defaultPipelineReconciler)
    (p : Pipeline) (n : nat) :
  ∀ (fuel : nat) (w : World),
    (∀ k, (k < n)%nat → store_err (store_calls w + k) ≠ None) →
    store_err (store_calls w + n) = None →
    (n < fuel)%nat →
    updateStatusRunningLoop fuel pr p w =
      Some (tt, mkWorld (store_calls w + S n) (ctx_polls w)
                  (trace w ++ failedAttempts pr p (store_calls w) n
                   ++ [UpdatePipelineBaseStatus (ID (Base p)) PipelineStatusRunning None])).
Proof.
  induction n as [| n IH]; intros fuel w Hfail Hok Hfuel;
    (destruct fuel as [| fuel]; [lia |]); cbn [updateStatusRunningLoop failedAttempts];
    unfold mbind, M_bind, storeWrite.
  - rewrite Nat.add_0_r in Hok. rewrite Hok. cbn.
    by rewrite Nat.add_1_r.
  - pose proof (Hfail 0%nat ltac:(lia)) as H0. rewrite Nat.add_0_r in H0.
    destruct (store_err (store_calls w)) as [e |] eqn:Hs; [| done].
    unfold emit at 1. cbn [store_calls ctx_polls trace].
    rewrite IH; cbn [store_calls ctx_polls trace].
    + f_equal. f_equal. f_equal; [lia |].
      rewrite <- !app_assoc. done.
    + intros k Hk. replace (S (store_calls w) + k)%nat with (store_calls w + S k)%nat by lia.
      apply Hfail. lia.
    + by replace (S (store_calls w) + n)%nat with (store_calls w + S n)%nat by lia.
    + lia.
Qed.

(** As long as the store fails, the loop does not end. *)
Lemma updateStatusRunningLoop_keeps_trying (pr : defaultPipelineReconciler)
    (p : Pipeline) (fuel : nat) :
  ∀ (w : World),
    (∀ k, (k < fuel)%nat → store_err (store_calls w + k) ≠ None) →
    updateStatusRunningLoop fuel pr p w = None.
Proof.
  induction fuel as [| fuel IH]; intros w Hfail; [done |].
  cbn [updateStatusRunningLoop]. unfold mbind, M_bind, storeWrite.
  pose proof (Hfail 0%nat ltac:(lia)) as H0. rewrite Nat.add_0_r in H0.
  destruct (store_err (store_calls w)) as [e |] eqn:Hs; [| done].
  unfold emit at 1. apply IH. cbn [store_calls].
  intros k Hk. replace (S (store_calls w) + k)%nat with (store_calls w + S k)%nat by lia.
  apply Hfail. lia.
Qed.

End Prepare.

(** C5. [PrepareBeforeReconcile].  When the Status has passed the after-queue
    checkpoint, the call writes nothing to the store and emits no event (it
    only fires the trigger).  Otherwise, if the store fails the first [n]
    writes and accepts the next one, the call, given more than [n] rounds,
    returns the pipeline with Status [Running] after exactly [n] failed
    writes, each followed by a sleep of the default retry interval, the
    successful write, one event and the trigger: there is one event in all and
    none before the successful write.  With [n] rounds or fewer it has not
    returned: it never gives up while the store fails. *)
Theorem prepare_retries_until_written `{Externals} `{Environment}
    (pr : defaultPipelineReconciler) (p : Pipeline) (w : World) (n : nat) :
  (AfterPipelineQueue (Status (Base p)) = true →
   ∀ fuel,
     PrepareBeforeReconcile fuel pr p w =
       Some (p, mkWorld (store_calls w) (ctx_polls w) (trace w ++ [GoTriggerNextLoop])))
  ∧ (AfterPipelineQueue (Status (Base p)) = false →
     (∀ k, (k < n)%nat → store_err (store_calls w + k) ≠ None) →
     (∀ fuel, (fuel ≤ n)%nat → PrepareBeforeReconcile fuel pr p w = None)
     ∧ (store_err (store_calls w + n) = None →
        ∀ fuel, (n < fuel)%nat →
          let p' := setStatus p PipelineStatusRunning in
          let tr := (failedAttempts pr p (store_calls w) n
                     ++ [UpdatePipelineBaseStatus (ID (Base p)) PipelineStatusRunning None;
                         EmitPipelineInstanceEvent p' (GetUserID p');
                         GoTriggerNextLoop])%list in
          PrepareBeforeReconcile fuel pr p w =
            Some (p', mkWorld (store_calls w + S n) (ctx_polls w) (trace w ++ tr))
          ∧ List.filter isEvent tr = [EmitPipelineInstanceEvent p' (GetUserID p')]
          ∧ List.filter isSuccessfulStoreWrite tr =
              [UpdatePipelineBaseStatus (ID (Base p)) PipelineStatusRunning None])).
Proof.
  split.
  - intros Hafter fuel. unfold PrepareBeforeReconcile. by rewrite Hafter.
  - intros Hbefore Hfail. split.
    + intros fuel Hfuel. unfold PrepareBeforeReconcile. rewrite Hbefore.
      unfold mbind at 1, M_bind at 1.
      rewrite updateStatusRunningLoop_keeps_trying; [done |].
      intros k Hk. apply Hfail. lia.
    + intros Hok fuel Hfuel p' tr. split; [| split].
      * unfold PrepareBeforeReconcile. rewrite Hbefore.
        unfold mbind at 1, M_bind at 1.
        rewrite (updateStatusRunningLoop_succeeds pr p n) by done.
        unfold mbind, M_bind, emit, mret, M_ret. cbn [store_calls ctx_polls trace].
        subst tr p'. f_equal. f_equal. f_equal.
        rewrite <- !app_assoc. done.
      * subst tr. rewrite List.filter_app, failedAttempts_no_event. done.
      * subst tr. rewrite List.filter_app, failedAttempts_no_success by done. done.
Qed.

(** ** Teardown *)

Section TeardownSteps.

Context {ext : Externals} {env : Environment}.

(** The end-time step in closed form.  After a failed write the second
    attempt finds [TimeEnd] set by the first and aborts. *)
Lemma ContinueWorking_updateEndTime (fuel : nat) (d : Duration) (now : Time)
    (pr : defaultPipelineReconciler) (p : Pipeline) (w : World) :
  ContinueWorking (S (S fuel)) d (updateEndTime now pr) p w =
    Some
      (if ctx_done (ctx_polls w)
       then (p, mkWorld (store_calls w) (S (ctx_polls w)) (trace w))
       else
         match TimeEnd (Base p) with
         | Some _ => (p, mkWorld (store_calls w) (S (ctx_polls w)) (trace w))
         | None =>
             match store_err (store_calls w) with
             | None =>
                 (ended now p,
                  mkWorld (S (store_calls w)) (S (ctx_polls w))
                    (trace w ++ [UpdatePipelineBase (ID (Base p)) (Base (ended now p)) None]))
             | Some e =>
                 (ended now p,
                  mkWorld (S (store_calls w)) (S (S (ctx_polls w)))
                    (trace w ++ [UpdatePipelineBase (ID (Base p)) (Base (ended now p)) (Some e);
                                 Sleep d]))
             end
         end).
Proof.
  cbn [ContinueWorking]. unfold mbind, M_bind, pollCtx, updateEndTime.
  destruct (ctx_done (ctx_polls w)); [done |].
  destruct (TimeEnd (Base p)) eqn:Hte; [done |].
  unfold mbind, M_bind, storeWrite. cbn [store_calls ctx_polls trace].
  destruct (store_err (store_calls w)); cbn; [| done].
  rewrite <- app_assoc. by destruct (ctx_done (S (ctx_polls w))).
Qed.

Lemma ContinueWorking_aopAfterExec (fuel : nat) (d : Duration) (p : Pipeline) (w : World) :
  ContinueWorking (S fuel) d aopAfterExec p w =
    Some
      (if ctx_done (ctx_polls w)
       then (p, mkWorld (store_calls w) (S (ctx_polls w)) (trace w))
       else (p, mkWorld (store_calls w) (S (ctx_polls w))
                  (trace w ++ [AopHandleAfterExec p (aop_err p)]))).
Proof.
  cbn [ContinueWorking]. unfold mbind, M_bind, pollCtx, aopAfterExec.
  by destruct (ctx_done (ctx_polls w)).
Qed.

(** The mark step in closed form.  After a failed write the second attempt
    finds the in-memory mark set by the first and aborts. *)
Lemma ContinueWorking_markTeardown (fuel : nat) (d : Duration)
    (pr : defaultPipelineReconciler) (p : Pipeline) (w : World) :
  ContinueWorking (S (S fuel)) d (markTeardown pr) p w =
    Some
      (if ctx_done (ctx_polls w)
       then (p, mkWorld (store_calls w) (S (ctx_polls w)) (trace w))
       else
         if CompleteReconcilerTeardown (Extra (PExtra p))
         then (p, mkWorld (store_calls w) (S (ctx_polls w)) (trace w))
         else
           let p1 := setCompleteReconcilerTeardown p true in
           match store_err (store_calls w) with
           | None =>
               (p1, mkWorld (S (store_calls w)) (S (ctx_polls w))
                      (trace w ++ [UpdatePipelineExtraByPipelineID (ID (Base p)) (PExtra p1) None]))
           | Some e =>
               (p1, mkWorld (S (store_calls w)) (S (S (ctx_polls w)))
                      (trace w ++ [UpdatePipelineExtraByPipelineID (ID (Base p)) (PExtra p1) (Some e);
                                   Sleep (cfgRetryInterval pr)]))
           end).
Proof.
  cbn [ContinueWorking]. unfold mbind, M_bind, pollCtx, markTeardown.
  destruct (ctx_done (ctx_polls w)); [done |].
  destruct (CompleteReconcilerTeardown (Extra (PExtra p))) eqn:Hm; [done |].
  unfold mbind, M_bind, storeWrite. cbn [store_calls ctx_polls trace].
  destruct (store_err (store_calls w)); cbn; [| done].
  rewrite <- app_assoc. by destruct (ctx_done (S (ctx_polls w))).
Qed.

(** What the three steps add to the trace. *)
Lemma updateEndTime_trace (fuel : nat) (d : Duration) (now : Time)
    (pr : defaultPipelineReconciler) (p : Pipeline) (w : World) :
  ∃ p1 w1 tr,
    ContinueWorking (S (S fuel)) d (updateEndTime now pr) p w = Some (p1, w1)
    ∧ trace w1 = (trace w ++ tr)%list
    ∧ PExtra p1 = PExtra p
    ∧ ID (Base p1) = ID (Base p)
    ∧ (tr = [] ∧ p1 = p
       ∨ TimeEnd (Base p) = None ∧ p1 = ended now p
         ∧ ∃ err rest,
             tr = UpdatePipelineBase (ID (Base p)) (Base (ended now p)) err :: rest
             ∧ List.filter isStoreWrite rest = []).
Proof.
  rewrite ContinueWorking_updateEndTime.
  destruct (ctx_done (ctx_polls w)).
  { eexists _, _, []. rewrite app_nil_r. repeat split; by left. }
  destruct (TimeEnd (Base p)) eqn:Hte.
  { eexists _, _, []. rewrite app_nil_r. repeat split; by left. }
  destruct (store_err (store_calls w)) as [e |].
  - eexists _, _, _. repeat split. right. repeat split. by eexists _, _.
  - eexists _, _, _. repeat split. right. repeat split. by eexists _, _.
Qed.

Lemma markTeardown_trace (fuel : nat) (d : Duration)
    (pr : defaultPipelineReconciler) (p : Pipeline) (w : World) :
  ∃ p1 w1 tr,
    ContinueWorking (S (S fuel)) d (markTeardown pr) p w = Some (p1, w1)
    ∧ trace w1 = (trace w ++ tr)%list
    ∧ Base p1 = Base p
    ∧ List.filter isPipelineBaseWrite tr = []
    ∧ (length (List.filter isTeardownMarkWrite tr) ≤ 1)%nat.
Proof.
  rewrite ContinueWorking_markTeardown.
  destruct (ctx_done (ctx_polls w)).
  { eexists _, _, []. rewrite app_nil_r. repeat split; cbn; lia. }
  destruct (CompleteReconcilerTeardown (Extra (PExtra p))).
  { eexists _, _, []. rewrite app_nil_r. repeat split; cbn; lia. }
  cbn zeta. destruct (store_err (store_calls w)) as [e |];
    eexists _, _, _; repeat split; cbn; lia.
Qed.

End TeardownSteps.

Lemma no_store_write_no_base_write (tr : list Effect) :
  List.filter isStoreWrite tr = [] → List.filter isPipelineBaseWrite tr = [].
Proof.
  induction tr as [| e tr IH]; [done |].
  destruct e; cbn; intros Hr; try discriminate; auto.
Qed.

(** C7. Teardown always returns (two rounds per retry step are enough).  It
    writes the pipeline base row at most once.  If [TimeEnd] is already set
    on entry, the base part of the pipeline ([TimeEnd], [CostTimeSec] and
    the rest) is as before and no base-row write is made.  If [TimeEnd] is
    nil on entry, either nothing happened to the base part (the context was
    done before the first attempt), or [TimeEnd] is now, [CostTimeSec] is
    computed from it, and that base row is the one written. *)
Theorem teardown_sets_TimeEnd_once `{Externals} `{Environment}
    (fuel : nat) (now : Time) (pr : defaultPipelineReconciler) (p : Pipeline)
    (w : World) :
  ∃ p' w' tr,
    TeardownAfterReconcileDone (S (S fuel)) now pr p w = Some (p', w')
    ∧ trace w' = (trace w ++ tr)%list
    ∧ (length (List.filter isPipelineBaseWrite tr) ≤ 1)%nat
    ∧ (∀ t, TimeEnd (Base p) = Some t →
         Base p' = Base p ∧ List.filter isPipelineBaseWrite tr = [])
    ∧ (TimeEnd (Base p) = None →
       (Base p' = Base p ∧ List.filter isPipelineBaseWrite tr = [])
       ∨ (Base p' = Base (ended now p)
          ∧ TimeEnd (Base p') = Some now
          ∧ CostTimeSec (Base p') = CalculatePipelineCostTimeSec (setTimeEnd p (Some now))
          ∧ ∃ err, List.filter isPipelineBaseWrite tr =
                     [UpdatePipelineBase (ID (Base p)) (Base (ended now p)) err])).
Proof.
  unfold TeardownAfterReconcileDone.
  destruct (updateEndTime_trace fuel (defaultRetryInterval pr) now pr p w)
    as (p1 & w1 & tr1 & Hstep1 & Htr1 & Hextra1 & Hid1 & Hcase1).
  unfold mbind at 1, M_bind at 1. rewrite Hstep1.
  unfold spawnMetrics, notifyCollaborators, mbind, M_bind, emit.
  cbn [store_calls ctx_polls trace].
  rewrite ContinueWorking_aopAfterExec. cbn [store_calls ctx_polls trace].
  assert (Hbase1 : List.filter isPipelineBaseWrite tr1 = []
                   ∨ ∃ err, List.filter isPipelineBaseWrite tr1 =
                              [UpdatePipelineBase (ID (Base p)) (Base (ended now p)) err]).
  { destruct Hcase1 as [[-> _] | (_ & _ & err & rest & -> & Hrest)]; [by left |].
    right. exists err. cbn. f_equal. by apply no_store_write_no_base_write. }
  destruct (ctx_done (ctx_polls w1)); cbn [store_calls ctx_polls trace];
    match goal with
    | |- context [ContinueWorking _ _ (markTeardown pr) p1 ?w2] =>
        destruct (markTeardown_trace fuel rutilDefaultRetryInterval pr p1 w2)
          as (p3 & w3 & tr3 & Hstep3 & Htr3 & Hbase3 & Hnobase3 & _)
    end;
    rewrite Hstep3; cbn [trace] in Htr3; rewrite Htr1, <- !app_assoc in Htr3;
    cbn [app] in Htr3; eexists p3, w3, _; (split; [done |]); (split; [exact Htr3 |]);
    rewrite List.filter_app; cbn [List.filter isPipelineBaseWrite];
    rewrite Hnobase3, app_nil_r, Hbase3.
  all: split; [destruct Hbase1 as [-> | [err ->]]; cbn; lia |].
  all: split.
  all: try (intros t Ht; destruct Hcase1 as [[-> ->] | (Hnone & _)]; [done | congruence]).
  all: intros Hnone; destruct Hcase1 as [[-> ->] | (_ & -> & err & rest & -> & Hrest)];
    [by left | right].
  all: split; [done |]; split; [done |]; split; [done |]; exists err; cbn; f_equal.
  all: by apply no_store_write_no_base_write.
Qed.

(** C6, at the input where it fails.  The store accepts the end-time write,
    refuses the first write of the teardown mark and would accept every
    write after that; the context is never done.  Teardown returns after one
    attempt of the mark write: the first attempt has set the mark in memory,
    so the second attempt takes the already-marked branch and aborts.  The
    only mark write in the trace is the refused one, nothing follows it but
    the sleep, and the mark is set in memory only. *)
Theorem teardown_mark_write_not_retried (fuel : nat) :
  let env := Demo.environment [1%nat] in
  let pr := Demo.reconciler "Success" false (Some true) in
  let p := Demo.pipeline "Success" in
  ∃ p' w',
    @TeardownAfterReconcileDone Demo.externals env (S (S fuel)) 200%Z pr p emptyWorld
      = Some (p', w')
    ∧ List.filter isTeardownMarkWrite (trace w') =
        [UpdatePipelineExtraByPipelineID 1%N (PExtra p') (Some "store: connection refused")]
    ∧ List.filter isSuccessfulStoreWrite (trace w') =
        [UpdatePipelineBase 1%N (Base p') None]
    ∧ last (trace w') = Some (Sleep 7%Z)
    ∧ CompleteReconcilerTeardown (Extra (PExtra p')) = true
    ∧ (∀ k, (store_calls w' ≤ k)%nat → @store_err env k = None).
Proof.
  intros env pr p. unfold TeardownAfterReconcileDone.
  unfold mbind at 1, M_bind at 1. rewrite ContinueWorking_updateEndTime.
  unfold spawnMetrics, notifyCollaborators, mbind, M_bind, emit.
  cbn -[ContinueWorking].
  rewrite ContinueWorking_aopAfterExec.
  cbn -[ContinueWorking].
  rewrite ContinueWorking_markTeardown. cbn.
  eexists _, _. split; [reflexivity |]. cbn.
  repeat split; try reflexivity.
  intros k Hk. destruct (Nat.eqb_spec k 1); [lia | done].
Qed.

(** C4 as stated does not hold: with the canceling flag set, the second
    override wins and the stored aggregate is [StopByUser]. *)
Lemma aggregates_to_Running_before_first_row_fails :
  ¬ aggregates_to_Running_before_first_row.
Proof.
  intros Hclaim.
  specialize (Hclaim Demo.externals
                (Demo.snapshot [Demo.task "a" "Running"] [] [])
                (Demo.reconciler "" true None)
                (setFlagHaveTask
                   (setCalculatedStatus (Demo.reconciler "" true None)
                      PipelineStatusStopByUser) true)
                (Demo.pipeline "Running") []
                eq_refl eq_refl eq_refl eq_refl eq_refl).
  discriminate Hclaim.
Qed.

(** ** The theorems at concrete inputs *)

(** C2 on a run: two tasks are running when the reconciler is cancelled; the
    aggregate becomes StopByUser and the persist step writes it. *)
Lemma canceling_persists_StopByUser_witness :
  let sn := Demo.snapshot [Demo.task "a" "Running"; Demo.task "b" "Running"] []
              [Demo.task "a" "Running"; Demo.task "b" "Running"] in
  let pr := Demo.reconciler "Running" true (Some true) in
  let p := Demo.pipeline "Running" in
  let p' := setStatus p PipelineStatusStopByUser in
  Status (Base p') = PipelineStatusStopByUser
  ∧ @IsEndStatus Demo.externals (Status (Base p')) = true.
Proof.
  intros sn pr p p'.
  pose proof (@canceling_persists_StopByUser Demo.externals (Demo.environment [])
                sn sn pr (setCalculatedStatus pr PipelineStatusStopByUser) p p'
                emptyWorld
                (mkWorld 1 0
                   [UpdatePipelineBaseStatus 1%N PipelineStatusStopByUser None;
                    EmitPipelineInstanceEvent p' "user"])
                eq_refl eq_refl eq_refl eq_refl) as (_ & Hstatus & Hend & _).
  exact (conj Hstatus Hend).
Defined.

(** C3 on a run: one task of two is still running, nothing is written. *)
Lemma update_only_when_done_and_changed_witness :
  let sn := Demo.snapshot [Demo.task "a" "Success"; Demo.task "b" "Running"] [] [] in
  let pr := Demo.reconciler "Running" false (Some true) in
  let p := Demo.pipeline "Running" in
  ∃ r p' w',
    @UpdateCurrentReconcileStatusIfNecessary Demo.externals (Demo.environment [])
      sn pr p emptyWorld = Some ((r, p'), w')
    ∧ r = None ∧ p' = p ∧ w' = emptyWorld.
Proof.
  intros sn pr p.
  destruct (@update_only_when_done_and_changed Demo.externals (Demo.environment [])
              sn pr p emptyWorld)
    as (r & p' & w' & tr & Hrun & _ & _ & Hnot & _).
  exists r, p', w'. split; [exact Hrun |].
  exact (Hnot [Demo.task "a" "Success"; Demo.task "b" "Running"] eq_refl eq_refl eq_refl).
Defined.

(** C4 as amended, on a run without cancellation: no row yet, tasks declared,
    the aggregate is Running. *)
Lemma early_success_overridden_witness :
  calculatedPipelineStatusByAllReconciledTasks
    (snd (@calculatePipelineStatusByAllReconciledTasks Demo.externals
            (Demo.snapshot [Demo.task "a" "Born"] [] [])
            (Demo.reconciler "" false None) (Demo.pipeline "Running")))
  = PipelineStatusRunning.
Proof.
  exact (@early_success_overridden Demo.externals
           (Demo.snapshot [Demo.task "a" "Born"] [] [])
           (Demo.reconciler "" false None) _ (Demo.pipeline "Running") []
           eq_refl eq_refl eq_refl eq_refl eq_refl).
Defined.

(** C5 on scenario S4: the store fails three times, then accepts. *)
Lemma prepare_retries_until_written_witness :
  let env := Demo.environment [0; 1; 2]%nat in
  let pr := Demo.reconciler "" false None in
  let p := Demo.pipeline "Queued" in
  let p' := setStatus p PipelineStatusRunning in
  @PrepareBeforeReconcile Demo.externals env 4 pr p emptyWorld =
    Some (p', mkWorld 4 0
                [UpdatePipelineBaseStatus 1%N "Running" (Some "store: connection refused");
                 Sleep 3%Z;
                 UpdatePipelineBaseStatus 1%N "Running" (Some "store: connection refused");
                 Sleep 3%Z;
                 UpdatePipelineBaseStatus 1%N "Running" (Some "store: connection refused");
                 Sleep 3%Z;
                 UpdatePipelineBaseStatus 1%N "Running" None;
                 EmitPipelineInstanceEvent p' "user";
                 GoTriggerNextLoop])
  ∧ @PrepareBeforeReconcile Demo.externals env 3 pr p emptyWorld = None.
Proof.
  intros env pr p p'.
  destruct (@prepare_retries_until_written Demo.externals env pr p emptyWorld 3)
    as [_ Hbefore].
  assert (Hfail : ∀ k, (k < 3)%nat → @store_err env (store_calls emptyWorld + k) ≠ None).
  { intros k Hk. destruct k as [| [| [| k]]]; cbn; (discriminate || lia). }
  destruct (Hbefore eq_refl Hfail) as [Hnone Hsome].
  split.
  - exact (proj1 (Hsome eq_refl 4%nat (le_n 4))).
  - exact (Hnone 3%nat (le_n 3)).
Defined.

(** C7 on a run: a pipeline whose TimeEnd is set goes through teardown with
    its base row untouched. *)
Lemma teardown_sets_TimeEnd_once_witness :
  let p := setTimeEnd (Demo.pipeline "Success") (Some 150%Z) in
  ∃ p' w',
    @TeardownAfterReconcileDone Demo.externals (Demo.environment []) 2 200%Z
      (Demo.reconciler "Success" false (Some true)) p emptyWorld = Some (p', w')
    ∧ Base p' = Base p
    ∧ List.filter isPipelineBaseWrite (trace w') = [].
Proof.
  intros p.
  destruct (@teardown_sets_TimeEnd_once Demo.externals (Demo.environment []) 0 200%Z
              (Demo.reconciler "Success" false (Some true)) p emptyWorld)
    as (p' & w' & tr & Hrun & Htr & _ & Hset & _).
  exists p', w'. split; [exact Hrun |].
  destruct (Hset 150%Z eq_refl) as [Hbase Hnone].
  split; [exact Hbase |]. rewrite Htr. exact Hnone.
Defined.

(** C8 on a run: all tasks succeeded; the first call writes Success, the
    second does nothing. *)
Lemma update_twice_writes_once_witness :
  let sn := Demo.snapshot [Demo.task "a" "Success"] [] [Demo.task "a" "Success"] in
  let pr := Demo.reconciler "Success" false (Some true) in
  let p := Demo.pipeline "Running" in
  ∃ r1 p1 w1 r2 p2 w2 tr,
    @UpdateCurrentReconcileStatusIfNecessary Demo.externals (Demo.environment [])
      sn pr p emptyWorld = Some ((r1, p1), w1)
    ∧ @UpdateCurrentReconcileStatusIfNecessary Demo.externals (Demo.environment [])
        sn pr p1 w1 = Some ((r2, p2), w2)
    ∧ (r1 = None → r2 = None ∧ p2 = p1 ∧ w2 = w1)
    ∧ trace w2 = (trace emptyWorld ++ tr)%list
    ∧ (length (List.filter isSuccessfulStoreWrite tr) ≤ 1)%nat
    ∧ (length (List.filter isEvent tr) ≤ 1)%nat.
Proof.
  intros sn pr p.
  exact (@update_twice_writes_once Demo.externals (Demo.environment []) sn pr p
           emptyWorld (fun _ => eq_refl)).
Defined.

(** C10 on a run: the store refuses the status write. *)
Lemma update_write_failure_leaves_state_witness :
  let env := Demo.environment [0%nat] in
  let sn := Demo.snapshot [Demo.task "a" "Failed"] [] [Demo.task "a" "Failed"] in
  let pr := Demo.reconciler "Failed" false (Some true) in
  let p := Demo.pipeline "Running" in
  @UpdateCurrentReconcileStatusIfNecessary Demo.externals env sn pr p emptyWorld =
    Some ((Some "store: connection refused", p),
          mkWorld 1 0
            [UpdatePipelineBaseStatus 1%N "Failed" (Some "store: connection refused")]).
Proof.
  intros env sn pr p.
  exact (proj1 (@update_write_failure_leaves_state Demo.externals env sn pr p
                  emptyWorld emptyWorld "Failed" "store: connection refused"
                  (@ChosenAggregate Demo.externals sn pr p eq_refl)
                  ltac:(discriminate) eq_refl)).
Defined.

(** * Further properties of the reconciler *)

(** ** Planning *)

Section Planning.

(** The filtering loop, exactly: what it appends is a sublist of the planner's
    answer, holding the names that were not in the processing set; the set
    afterwards is the set before plus every name of the planner's answer. *)
Lemma filter_loop_exact (ts acc : list PipelineTask) (s : gset string) :
  ∃ new,
    fold_left filterStep ts (acc, s)
      = ((acc ++ new)%list, s ∪ list_to_set (Name <$> ts))
    ∧ sublist new ts
    ∧ (∀ n, n ∈ Name <$> new ↔ (n ∈ Name <$> ts) ∧ (n ∉ s)).
Proof.
  revert acc s. induction ts as [| t ts IH]; intros acc s.
  - exists []. rewrite app_nil_r. cbn. split; [f_equal; set_solver |].
    split; [constructor | set_solver].
  - cbn [fold_left filterStep]. rewrite LoadOrStore_spec.
    destruct (decide (Name t ∈ s)) as [Hin | Hout].
    + rewrite bool_decide_eq_true_2 by done. cbn [negb].
      destruct (IH acc s) as (new & Heq & Hsub & Hnames).
      exists new. rewrite Heq. split; [f_equal; set_solver |].
      split; [by apply sublist_cons |].
      intros n. rewrite Hnames, fmap_cons. set_solver.
    + rewrite bool_decide_eq_false_2 by done. cbn [negb].
      destruct (IH (acc ++ [t])%list ({[ Name t ]} ∪ s)) as (new & Heq & Hsub & Hnames).
      exists (t :: new). rewrite Heq, <- app_assoc. split; [f_equal; set_solver |].
      split; [by apply sublist_skip |].
      intros n. rewrite !fmap_cons, !elem_of_cons, Hnames.
      destruct (decide (n = Name t)) as [-> | Hne]; set_solver.
Qed.

(** Names that are all in the processing set pass nothing and change
    nothing. *)
Lemma filter_loop_all_processing (ts acc : list PipelineTask) (s : gset string) :
  (∀ t, t ∈ ts → Name t ∈ s) →
  fold_left filterStep ts (acc, s) = (acc, s).
Proof.
  revert acc. induction ts as [| t ts IH]; intros acc Hall; [done |].
  cbn [fold_left filterStep]. rewrite LoadOrStore_spec.
  rewrite decide_True, bool_decide_eq_true_2 by (apply Hall; set_solver).
  cbn [negb]. apply IH. intros t' Ht'. apply Hall. set_solver.
Qed.

End Planning.

(** X1. While the canceling flag is set, [GetTasksCanBeConcurrentlyScheduled]
    leaves the reconciler as it is and hands back no task: it returns the
    empty list, or the merger's error; the planner's answer plays no part. *)
Theorem GetTasks_while_canceling (sn : Snapshot) (pr : defaultPipelineReconciler)
    (p : Pipeline)
    (planner : Pipeline -> list PipelineTask -> result (list PipelineTask))
    (Hcancel : flagCanceling pr = true) :
  snd (GetTasksCanBeConcurrentlyScheduled sn pr p) = pr
  ∧ ((∃ allTasks, ymlTaskMergeDBTasks sn p = Ok allTasks
                  ∧ fst (GetTasksCanBeConcurrentlyScheduled sn pr p) = Ok [])
     ∨ (∃ e, ymlTaskMergeDBTasks sn p = Err e
             ∧ fst (GetTasksCanBeConcurrentlyScheduled sn pr p) = Err e))
  ∧ GetTasksCanBeConcurrentlyScheduled
      (mkSnapshot (ymlTaskMergeDBTasks sn) planner (ListPipelineTasksByPipelineID sn)) pr p
    = GetTasksCanBeConcurrentlyScheduled sn pr p.
Proof.
  unfold GetTasksCanBeConcurrentlyScheduled. cbn [ymlTaskMergeDBTasks].
  destruct (ymlTaskMergeDBTasks sn p) as [allTasks | e]; rewrite ?Hcancel; cbn.
  - split; [done |]. split; [left; by exists allTasks | done].
  - split; [done |]. split; [right; by exists e | done].
Qed.

(** X2. When [GetTasksCanBeConcurrentlyScheduled] returns an error, it is the
    merger's or the planner's, and the reconciler (its processing set
    included) is as before. *)
Theorem GetTasks_error_leaves_reconciler (sn : Snapshot)
    (pr : defaultPipelineReconciler) (p : Pipeline) (e : error)
    (Herr : fst (GetTasksCanBeConcurrentlyScheduled sn pr p) = Err e) :
  snd (GetTasksCanBeConcurrentlyScheduled sn pr p) = pr
  ∧ (ymlTaskMergeDBTasks sn p = Err e
     ∨ ∃ allTasks, ymlTaskMergeDBTasks sn p = Ok allTasks
                   ∧ flagCanceling pr = false
                   ∧ GetSchedulableTasks sn p allTasks = Err e).
Proof.
  revert Herr. unfold GetTasksCanBeConcurrentlyScheduled.
  destruct (ymlTaskMergeDBTasks sn p) as [allTasks | e1]; cbn.
  2: { intros [= ->]. split; [done | by left]. }
  destruct (flagCanceling pr) eqn:Hc; cbn; [done |].
  destruct (GetSchedulableTasks sn p allTasks) as [ready | e2] eqn:Hp; cbn.
  - destruct (fold_left filterStep ready ([], processingTasks pr)). done.
  - intros [= ->]. split; [done |]. right. by exists allTasks.
Qed.

(** X3. Without cancellation and with both collaborators answering, the
    returned tasks are a sublist of the planner's answer (its order kept),
    without a repeated name; a name is returned exactly when the planner
    named it and it was not in the processing set; afterwards the processing
    set is the old one plus every name the planner gave, and no other field
    of the reconciler has changed. *)
Theorem GetTasks_returns_the_unprocessed (sn : Snapshot)
    (pr : defaultPipelineReconciler) (p : Pipeline)
    (allTasks ready : list PipelineTask)
    (Hcancel : flagCanceling pr = false)
    (Hmerge : ymlTaskMergeDBTasks sn p = Ok allTasks)
    (Hplan : GetSchedulableTasks sn p allTasks = Ok ready) :
  ∃ out,
    GetTasksCanBeConcurrentlyScheduled sn pr p
      = (Ok out, setProcessingTasks pr (processingTasks pr ∪ list_to_set (Name <$> ready)))
    ∧ sublist out ready
    ∧ NoDup (Name <$> out)
    ∧ (∀ n, n ∈ Name <$> out ↔ (n ∈ Name <$> ready) ∧ (n ∉ processingTasks pr)).
Proof.
  destruct (filter_loop_exact ready [] (processingTasks pr)) as (new & Heq & Hsub & Hnames).
  destruct (filter_loop_spec ready [] (processingTasks pr)) as (new' & s' & Heq' & Hnd & _).
  rewrite Heq in Heq'. injection Heq' as <- _.
  exists new. unfold GetTasksCanBeConcurrentlyScheduled.
  rewrite Hmerge, Hcancel, Hplan, Heq. done.
Qed.

(** X4. Asking again on the same answers returns nothing new: after a call
    that returned a list, a second call with the same snapshot returns the
    empty list and leaves the reconciler as the first call left it. *)
Theorem GetTasks_again_returns_nothing (sn : Snapshot)
    (pr pr' : defaultPipelineReconciler) (p : Pipeline) (out : list PipelineTask)
    (Hfirst : GetTasksCanBeConcurrentlyScheduled sn pr p = (Ok out, pr')) :
  GetTasksCanBeConcurrentlyScheduled sn pr' p = (Ok [], pr').
Proof.
  revert Hfirst. unfold GetTasksCanBeConcurrentlyScheduled.
  destruct (ymlTaskMergeDBTasks sn p) as [allTasks | e]; [| done].
  destruct (flagCanceling pr) eqn:Hc.
  { intros [= <- <-]. by rewrite Hc. }
  destruct (GetSchedulableTasks sn p allTasks) as [ready | e]; [| done].
  destruct (filter_loop_exact ready [] (processingTasks pr)) as (new & Heq & _).
  rewrite Heq. intros [= <- <-]. cbn. rewrite Hc.
  rewrite filter_loop_all_processing; [done |].
  intros t Ht. apply elem_of_union_r, elem_of_list_to_set, list_elem_of_fmap.
  by exists t.
Qed.

(** ** Cancellation and aggregation over a run *)

Section AfterCancel.

Context {ext : Externals}.

Lemma runOperations_canceled_schedules_nothing (os : list Operation)
    (pr : defaultPipelineReconciler) :
  flagCanceling pr = true → snd (runOperations os pr) = [].
Proof.
  revert pr. induction os as [| o os IH]; intros pr Hc; [done |].
  cbn [runOperations].
  pose proof (runOperation_flag o pr) as Hflag. rewrite Hc in Hflag. cbn in Hflag.
  assert (Hout : snd (runOperation o pr) = []).
  { destruct o as [sn p | sn p | p]; cbn [runOperation]; [| done..].
    destruct (GetTasks_while_canceling sn pr p (GetSchedulableTasks sn) Hc)
      as (_ & [(a & _ & Hr) | (e & _ & Hr)] & _);
      destruct (GetTasksCanBeConcurrentlyScheduled sn pr p) as [r pr1];
      cbn in Hr; by subst r. }
  destruct (runOperation o pr) as [pr1 out1]. cbn in Hflag, Hout. subst out1.
  specialize (IH pr1 Hflag). destruct (runOperations os pr1) as [pr2 out2].
  cbn in IH |- *. done.
Qed.

Lemma calculate_keeps_memo (sn : Snapshot) (pr : defaultPipelineReconciler)
    (p : Pipeline) (b : bool) :
  flagHaveTask pr = Some b →
  flagHaveTask (snd (calculatePipelineStatusByAllReconciledTasks sn pr p)) = Some b.
Proof.
  intros Hb. unfold calculatePipelineStatusByAllReconciledTasks. rewrite Hb.
  by destruct (ListPipelineTasksByPipelineID sn (ID (Base p))).
Qed.

Lemma runOperation_keeps_memo (o : Operation) (pr : defaultPipelineReconciler) (b : bool) :
  flagHaveTask pr = Some b → flagHaveTask (fst (runOperation o pr)) = Some b.
Proof.
  intros Hb. destruct o as [sn p | sn p | p]; cbn [runOperation].
  - unfold GetTasksCanBeConcurrentlyScheduled.
    destruct (ymlTaskMergeDBTasks sn p) as [allTasks |]; [| done].
    destruct (flagCanceling pr); [done |].
    destruct (GetSchedulableTasks sn p allTasks) as [ready |]; [| done].
    by destruct (fold_left filterStep ready ([], processingTasks pr)).
  - by apply calculate_keeps_memo.
  - done.
Qed.

End AfterCancel.

(** X5. Once [CancelReconcile] has been called, no later call of
    [GetTasksCanBeConcurrentlyScheduled] hands back a task, whatever else
    happens to the reconciler in between. *)
Theorem nothing_scheduled_after_cancel `{Externals} (os : list Operation)
    (pr : defaultPipelineReconciler) (p : Pipeline) :
  snd (runOperations os (CancelReconcile pr p)) = [].
Proof. by apply runOperations_canceled_schedules_nothing. Qed.

(** X6. The have-task flag is memoized: once it holds a value, no operation
    of the reconciler changes it, whatever the merger answers later. *)
Theorem flagHaveTask_memoized `{Externals} (os : list Operation)
    (pr : defaultPipelineReconciler) (b : bool)
    (Hset : flagHaveTask pr = Some b) :
  flagHaveTask (fst (runOperations os pr)) = Some b.
Proof.
  revert pr Hset. induction os as [| o os IH]; intros pr Hset; [done |].
  cbn [runOperations].
  pose proof (runOperation_keeps_memo o pr b Hset) as Ho.
  destruct (runOperation o pr) as [pr1 out1]. cbn in Ho.
  specialize (IH pr1 Ho). by destruct (runOperations os pr1).
Qed.

(** X7. When the aggregator returns an error, the stored aggregate, the
    canceling flag and the processing set are as before.  The error is the
    merger's, with the reconciler unchanged, or the store's listing error; in
    the second case a have-task flag that was unknown has been memoized from
    the merger's answer all the same. *)
Theorem calculate_error_keeps_aggregate `{Externals} (sn : Snapshot)
    (pr pr' : defaultPipelineReconciler) (p : Pipeline) (e : error)
    (Herr : calculatePipelineStatusByAllReconciledTasks sn pr p = (Some e, pr')) :
  calculatedPipelineStatusByAllReconciledTasks pr'
    = calculatedPipelineStatusByAllReconciledTasks pr
  ∧ flagCanceling pr' = flagCanceling pr
  ∧ processingTasks pr' = processingTasks pr
  ∧ ((flagHaveTask pr = None ∧ ymlTaskMergeDBTasks sn p = Err e ∧ pr' = pr)
     ∨ (ListPipelineTasksByPipelineID sn (ID (Base p)) = Err e
        ∧ ((∃ b, flagHaveTask pr = Some b ∧ pr' = pr)
           ∨ (∃ allTasks, flagHaveTask pr = None
                          ∧ ymlTaskMergeDBTasks sn p = Ok allTasks
                          ∧ pr' = setFlagHaveTask pr (bool_decide (0 < length allTasks)%nat))))).
Proof.
  revert Herr. unfold calculatePipelineStatusByAllReconciledTasks.
  destruct (flagHaveTask pr) as [b |] eqn:Hflag.
  - destruct (ListPipelineTasksByPipelineID sn (ID (Base p))) as [rows | e1]; [done |].
    intros [= -> <-]. repeat split. right. split; [done |]. left. by exists b.
  - destruct (ymlTaskMergeDBTasks sn p) as [allTasks | e1].
    + destruct (ListPipelineTasksByPipelineID sn (ID (Base p))) as [rows | e2]; [done |].
      intros [= -> <-]. repeat split. right. split; [done |]. right. by exists allTasks.
    + intros [= -> <-]. repeat split. by left.
Qed.

(** X8. Without cancellation the aggregate is the plain reduction of the
    listed rows whenever a row exists, or the pipeline is known to have no
    task, or the reduction is not a success status: the override to Running
    applies to nothing else. *)
Theorem calculate_is_the_reduction `{Externals} (sn : Snapshot)
    (pr pr' : defaultPipelineReconciler) (p : Pipeline) (rows : list PipelineTask)
    (Hcancel : flagCanceling pr = false)
    (Hagg : calculatePipelineStatusByAllReconciledTasks sn pr p = (None, pr'))
    (Hrows : ListPipelineTasksByPipelineID sn (ID (Base p)) = Ok rows)
    (Hplain : rows ≠ [] ∨ flagHaveTask pr' = Some false
              ∨ IsSuccessStatus (CalculatePipelineStatusV2 rows) = false) :
  calculatedPipelineStatusByAllReconciledTasks pr' = CalculatePipelineStatusV2 rows.
Proof.
  destruct (calculate_success sn pr pr' p Hagg)
    as (rows' & haveTask & Hrows' & Hhave & _ & Hcalc).
  assert (rows' = rows) as -> by congruence.
  rewrite Hcalc. unfold aggregate. rewrite Hcancel.
  destruct Hplain as [Hne | [Hfalse | Hnot]].
  - rewrite (bool_decide_eq_false_2 (length rows = 0%nat)), andb_false_r; [done |].
    by destruct rows.
  - assert (haveTask = false) as -> by congruence. by rewrite andb_false_r.
  - by rewrite Hnot.
Qed.

(** X9. Aggregation is idempotent: a second run on the same snapshot, right
    after a successful one, succeeds and leaves the reconciler exactly as the
    first run left it. *)
Theorem calculate_idempotent `{Externals} (sn : Snapshot)
    (pr pr' : defaultPipelineReconciler) (p : Pipeline)
    (Hagg : calculatePipelineStatusByAllReconciledTasks sn pr p = (None, pr')) :
  calculatePipelineStatusByAllReconciledTasks sn pr' p = (None, pr').
Proof.
  revert Hagg. unfold calculatePipelineStatusByAllReconciledTasks.
  destruct (flagHaveTask pr) as [b |] eqn:Hflag.
  - destruct (ListPipelineTasksByPipelineID sn (ID (Base p))) as [rows | e]; [| done].
    intros [= <-]. cbn. by rewrite Hflag.
  - destruct (ymlTaskMergeDBTasks sn p) as [allTasks | e]; [| done].
    destruct (ListPipelineTasksByPipelineID sn (ID (Base p))) as [rows | e]; [| done].
    intros [= <-]. done.
Qed.

(** ** The persist step and the preparation, as a caller sees them *)

(** X10. With a terminal cached aggregate, a call of
    [UpdateCurrentReconcileStatusIfNecessary] that returns nil leaves the
    pipeline with that aggregate as its Status, so [NeedReconcile] is false
    and [IsReconcileDone] is true afterwards; the merger is not consulted:
    any two snapshots give the same result. *)
Theorem update_with_terminal_aggregate_ends_reconcile `{Externals} `{Environment}
    (sn sn' : Snapshot) (pr : defaultPipelineReconciler) (p p' : Pipeline)
    (w w' : World)
    (Hend : IsEndStatus (calculatedPipelineStatusByAllReconciledTasks pr) = true)
    (Hupd : UpdateCurrentReconcileStatusIfNecessary sn pr p w = Some ((None, p'), w')) :
  Status (Base p') = calculatedPipelineStatusByAllReconciledTasks pr
  ∧ NeedReconcile p' = false
  ∧ IsReconcileDone p' = true
  ∧ UpdateCurrentReconcileStatusIfNecessary sn' pr p w
    = UpdateCurrentReconcileStatusIfNecessary sn pr p w.
Proof.
  assert (Hsame : UpdateCurrentReconcileStatusIfNecessary sn' pr p w
                  = UpdateCurrentReconcileStatusIfNecessary sn pr p w).
  { unfold UpdateCurrentReconcileStatusIfNecessary. by rewrite Hend. }
  assert (Hstatus : Status (Base p') = calculatedPipelineStatusByAllReconciledTasks pr).
  { pose proof (ChosenAggregate sn pr p Hend) as Hc.
    destruct (decide (Status (Base p) = calculatedPipelineStatusByAllReconciledTasks pr))
      as [Heq | Hne].
    - rewrite <- Heq in Hc. rewrite (Update_no_change sn pr p w Hc) in Hupd.
      by injection Hupd as <- <-.
    - rewrite (Update_write sn pr p w _ Hc) in Hupd by congruence.
      destruct (store_err (store_calls w)); [done |]. by injection Hupd as <- <-. }
  unfold IsReconcileDone, NeedReconcile. rewrite Hstatus, Hend. done.
Qed.

(** X11. Whatever [UpdateCurrentReconcileStatusIfNecessary] returns, the only
    field of the pipeline it can have changed is Status; it polls no context,
    makes at most one store call, and every store write it makes is a status
    write for this pipeline's ID. *)
Theorem update_changes_only_Status `{Externals} `{Environment}
    (sn : Snapshot) (pr : defaultPipelineReconciler) (p : Pipeline) (w : World) :
  ∃ r p' w' tr,
    UpdateCurrentReconcileStatusIfNecessary sn pr p w = Some ((r, p'), w')
    ∧ p' = setStatus p (Status (Base p'))
    ∧ ctx_polls w' = ctx_polls w
    ∧ (store_calls w' ≤ S (store_calls w))%nat
    ∧ trace w' = (trace w ++ tr)%list
    ∧ ∀ e, e ∈ tr → isStoreWrite e = true →
        ∃ s err, e = UpdatePipelineBaseStatus (ID (Base p)) s err.
Proof.
  destruct (Update_outcome sn pr p w) as (r & p' & w' & Hrun & Hout).
  exists r, p', w'.
  assert (Heta : p = setStatus p (Status (Base p))) by by destruct p as [[] ?].
  destruct Hout as [e Hend Hm | allTasks Hend Hm Hdone | Hc | chosen e Hc Hne Hs
                   | chosen Hc Hne Hs].
  1-3: exists []; rewrite app_nil_r; repeat split; try done; try lia;
       intros e0 He0; by apply elem_of_nil in He0.
  - eexists. repeat split; try done; cbn; try lia.
    intros e0 ->%list_elem_of_singleton _. by eexists _, _.
  - eexists. repeat split; try done; cbn; try lia.
    intros e0 [-> | ->%list_elem_of_singleton]%elem_of_cons Hw; [by eexists _, _ | done].
Qed.

Section PrepareRuns.

Context {ext : Externals} {env : Environment}.

(** A loop that ended made some failed rounds and one successful write. *)
Lemma updateStatusRunningLoop_returned (pr : defaultPipelineReconciler) (p : Pipeline)
    (fuel : nat) :
  ∀ (w w' : World),
    updateStatusRunningLoop fuel pr p w = Some (tt, w') →
    ∃ n, (n < fuel)%nat
         ∧ (∀ k, (k < n)%nat → store_err (store_calls w + k) ≠ None)
         ∧ store_err (store_calls w + n) = None
         ∧ w' = mkWorld (store_calls w + S n) (ctx_polls w)
                  (trace w ++ failedAttempts pr p (store_calls w) n
                   ++ [UpdatePipelineBaseStatus (ID (Base p)) PipelineStatusRunning None]).
Proof.
  induction fuel as [| fuel IH]; intros w w' Hrun; [done |].
  destruct (store_err (store_calls w)) as [e |] eqn:Hs.
  - cbn [updateStatusRunningLoop] in Hrun. unfold mbind, M_bind, storeWrite in Hrun.
    rewrite Hs in Hrun. unfold emit at 1 in Hrun. cbn [store_calls ctx_polls trace] in Hrun.
    destruct (IH _ _ Hrun) as (n & Hn & Hfail & Hok & ->).
    cbn [store_calls ctx_polls trace] in *.
    exists (S n). split; [lia |]. split; [| split].
    + intros [| k] Hk; [rewrite Nat.add_0_r; congruence |].
      replace (store_calls w + S k)%nat with (S (store_calls w) + k)%nat by lia.
      apply Hfail. lia.
    + by replace (store_calls w + S n)%nat with (S (store_calls w) + n)%nat by lia.
    + cbn [failedAttempts]. rewrite Hs. f_equal; [lia |].
      rewrite <- !app_assoc. done.
  - exists 0%nat. split; [lia |]. split; [intros k Hk; lia |].
    rewrite Nat.add_0_r. split; [done |].
    rewrite (updateStatusRunningLoop_succeeds pr p 0 (S fuel) w) in Hrun;
      [| intros k Hk; lia | by rewrite Nat.add_0_r | lia].
    by injection Hrun as <-.
Qed.

Lemma failedAttempts_no_trigger (pr : defaultPipelineReconciler) (p : Pipeline)
    (start n : nat) :
  List.filter isTrigger (failedAttempts pr p start n) = [].
Proof. revert start. induction n as [| n IH]; intros start; cbn; [done | apply IH]. Qed.

End PrepareRuns.

(** X12. Whenever [PrepareBeforeReconcile] returns, it has fired the trigger
    exactly once, as the last thing it did, it has emitted at most one event,
    and the only field of the pipeline it can have changed is Status, which
    is the old one or Running. *)
Theorem prepare_fires_one_trigger_last `{Externals} `{Environment}
    (fuel : nat) (pr : defaultPipelineReconciler) (p p' : Pipeline) (w w' : World)
    (Hrun : PrepareBeforeReconcile fuel pr p w = Some (p', w')) :
  ∃ tr,
    trace w' = (trace w ++ tr ++ [GoTriggerNextLoop])%list
    ∧ List.filter isTrigger tr = []
    ∧ (length (List.filter isEvent tr) ≤ 1)%nat
    ∧ p' = setStatus p (Status (Base p'))
    ∧ (Status (Base p') = Status (Base p) ∨ Status (Base p') = PipelineStatusRunning).
Proof.
  revert Hrun. unfold PrepareBeforeReconcile.
  destruct (AfterPipelineQueue (Status (Base p))) eqn:Hafter.
  - intros [= <- <-]. exists []. cbn. repeat split; try lia; [| by left].
    by destruct p as [[] ?].
  - unfold mbind at 1, M_bind at 1.
    destruct (updateStatusRunningLoop fuel pr p w) as [[[] w1] |] eqn:Hloop; [| done].
    destruct (updateStatusRunningLoop_returned pr p fuel w w1 Hloop)
      as (n & _ & _ & _ & ->).
    intros [= <- <-]. cbn [trace].
    exists (failedAttempts pr p (store_calls w) n
            ++ [UpdatePipelineBaseStatus (ID (Base p)) PipelineStatusRunning None;
                EmitPipelineInstanceEvent (setStatus p PipelineStatusRunning)
                  (GetUserID (setStatus p PipelineStatusRunning))])%list.
    split; [by rewrite <- !app_assoc |].
    rewrite !List.filter_app, failedAttempts_no_trigger, failedAttempts_no_event.
    cbn. repeat split; try lia. by right.
Qed.

(** X13. Provided Running is past the after-queue checkpoint, preparing a
    pipeline that has been prepared does no store write and emits no event:
    the second call returns at once, with any fuel, having only fired the
    trigger. *)
Theorem prepare_again_only_triggers `{Externals} `{Environment}
    (fuel fuel2 : nat) (pr : defaultPipelineReconciler) (p p' : Pipeline) (w w' : World)
    (Hrunning : AfterPipelineQueue PipelineStatusRunning = true)
    (Hrun : PrepareBeforeReconcile fuel pr p w = Some (p', w')) :
  PrepareBeforeReconcile fuel2 pr p' w' =
    Some (p', mkWorld (store_calls w') (ctx_polls w') (trace w' ++ [GoTriggerNextLoop])).
Proof.
  assert (Hafter : AfterPipelineQueue (Status (Base p')) = true).
  { revert Hrun. unfold PrepareBeforeReconcile.
    destruct (AfterPipelineQueue (Status (Base p))) eqn:Hafter.
    - by intros [= <- <-].
    - unfold mbind at 1, M_bind at 1.
      destruct (updateStatusRunningLoop fuel pr p w) as [[[] w1] |]; [| done].
      by intros [= <- <-]. }
  unfold PrepareBeforeReconcile. by rewrite Hafter.
Qed.

(** ** Teardown as a whole *)

Section TeardownRuns.

Context {ext : Externals} {env : Environment}.

(** Teardown is its first retry step, the middle, and its last retry step. *)
Lemma Teardown_steps (fuel : nat) (now : Time) (pr : defaultPipelineReconciler)
    (p p1 p3 : Pipeline) (w w1 w3 : World) :
  ContinueWorking (S (S fuel)) (defaultRetryInterval pr) (updateEndTime now pr) p w
    = Some (p1, w1) →
  ContinueWorking (S (S fuel)) rutilDefaultRetryInterval (markTeardown pr) p1
    (mkWorld (store_calls w1) (S (ctx_polls w1))
       (trace w1 ++ middleEffects (ctx_polls w1) p1))
    = Some (p3, w3) →
  TeardownAfterReconcileDone (S (S fuel)) now pr p w = Some (p3, w3).
Proof.
  intros Hstep1 Hstep3. unfold TeardownAfterReconcileDone.
  unfold mbind at 1, M_bind at 1. rewrite Hstep1.
  unfold spawnMetrics, notifyCollaborators, mbind, M_bind, emit.
  cbn [store_calls ctx_polls trace].
  rewrite ContinueWorking_aopAfterExec. rewrite <- Hstep3.
  unfold middleEffects. cbn [store_calls ctx_polls trace].
  destruct (ctx_done (ctx_polls w1)); cbn [store_calls ctx_polls trace app];
    rewrite <- !app_assoc; done.
Qed.

(** The end-time step: nothing, one accepted write, or one refused write and
    the sleep. *)
Lemma updateEndTime_shape (fuel : nat) (d : Duration) (now : Time)
    (pr : defaultPipelineReconciler) (p : Pipeline) (w : World) :
  ∃ p1 tr1 calls polls,
    ContinueWorking (S (S fuel)) d (updateEndTime now pr) p w
      = Some (p1, mkWorld (store_calls w + calls) (S (ctx_polls w + polls))
                    (trace w ++ tr1))
    ∧ ((p1 = p ∧ tr1 = [] ∧ calls = 0%nat ∧ polls = 0%nat
        ∧ (ctx_done (ctx_polls w) = true ∨ TimeEnd (Base p) ≠ None))
       ∨ (p1 = ended now p ∧ ctx_done (ctx_polls w) = false ∧ TimeEnd (Base p) = None
          ∧ calls = 1%nat
          ∧ ((store_err (store_calls w) = None ∧ polls = 0%nat
              ∧ tr1 = [UpdatePipelineBase (ID (Base p)) (Base (ended now p)) None])
             ∨ (∃ e, store_err (store_calls w) = Some e ∧ polls = 1%nat
                     ∧ tr1 = [UpdatePipelineBase (ID (Base p)) (Base (ended now p)) (Some e);
                              Sleep d])))).
Proof.
  rewrite ContinueWorking_updateEndTime.
  destruct (ctx_done (ctx_polls w)) eqn:Hctx.
  { exists p, [], 0%nat, 0%nat. rewrite app_nil_r, !Nat.add_0_r.
    split; [done |]. left. repeat split. by left. }
  destruct (TimeEnd (Base p)) eqn:Hte.
  { exists p, [], 0%nat, 0%nat. rewrite app_nil_r, !Nat.add_0_r.
    split; [done |]. left. repeat split. by right. }
  destruct (store_err (store_calls w)) as [e |] eqn:Hs.
  - eexists _, _, 1%nat, 1%nat. rewrite !Nat.add_1_r. split; [done |].
    right. repeat split. right. by exists e.
  - eexists _, _, 1%nat, 0%nat. rewrite Nat.add_1_r, Nat.add_0_r. split; [done |].
    right. repeat split. by left.
Qed.

(** The mark step, likewise. *)
Lemma markTeardown_shape (fuel : nat) (d : Duration)
    (pr : defaultPipelineReconciler) (p : Pipeline) (w : World) :
  ∃ p3 tr3 calls polls,
    ContinueWorking (S (S fuel)) d (markTeardown pr) p w
      = Some (p3, mkWorld (store_calls w + calls) (S (ctx_polls w + polls))
                    (trace w ++ tr3))
    ∧ ((p3 = p ∧ tr3 = [] ∧ calls = 0%nat ∧ polls = 0%nat
        ∧ (ctx_done (ctx_polls w) = true
           ∨ CompleteReconcilerTeardown (Extra (PExtra p)) = true))
       ∨ (p3 = setCompleteReconcilerTeardown p true
          ∧ ctx_done (ctx_polls w) = false
          ∧ CompleteReconcilerTeardown (Extra (PExtra p)) = false
          ∧ calls = 1%nat
          ∧ ((store_err (store_calls w) = None ∧ polls = 0%nat
              ∧ tr3 = [UpdatePipelineExtraByPipelineID (ID (Base p))
                         (PExtra (setCompleteReconcilerTeardown p true)) None])
             ∨ (∃ e, store_err (store_calls w) = Some e ∧ polls = 1%nat
                     ∧ tr3 = [UpdatePipelineExtraByPipelineID (ID (Base p))
                                (PExtra (setCompleteReconcilerTeardown p true)) (Some e);
                              Sleep (cfgRetryInterval pr)])))).
Proof.
  rewrite ContinueWorking_markTeardown.
  destruct (ctx_done (ctx_polls w)) eqn:Hctx.
  { exists p, [], 0%nat, 0%nat. rewrite app_nil_r, !Nat.add_0_r.
    split; [done |]. left. repeat split. by left. }
  destruct (CompleteReconcilerTeardown (Extra (PExtra p))) eqn:Hm.
  { exists p, [], 0%nat, 0%nat. rewrite app_nil_r, !Nat.add_0_r.
    split; [done |]. left. repeat split. by right. }
  cbn zeta. destruct (store_err (store_calls w)) as [e |] eqn:Hs.
  - eexists _, _, 1%nat, 1%nat. rewrite !Nat.add_1_r. split; [done |].
    right. repeat split. right. by exists e.
  - eexists _, _, 1%nat, 0%nat. rewrite Nat.add_1_r, Nat.add_0_r. split; [done |].
    right. repeat split. by left.
Qed.

End TeardownRuns.

(** X14. The order of teardown, whatever the store, the context and the hook
    answer.  The new part of the trace is: the end-time step (nothing, or one
    base-row write, refused ones followed by one sleep), then the three
    metrics goroutines, then the hook at most once, then the compensator, the
    GC wait and the cache clearing, then the mark step (nothing, or one write
    of the teardown mark, a refused one followed by one sleep).  So every
    base-row write comes before every notification and the mark write after
    all of them, and teardown makes at most two store writes. *)
Theorem teardown_order `{Externals} `{Environment}
    (fuel : nat) (now : Time) (pr : defaultPipelineReconciler) (p : Pipeline)
    (w : World) :
  ∃ p1 p3 w3 tr1 tr3 polls,
    TeardownAfterReconcileDone (S (S fuel)) now pr p w = Some (p3, w3)
    ∧ trace w3 = (trace w ++ tr1 ++ middleEffects polls p1 ++ tr3)%list
    ∧ List.filter isStoreWrite (middleEffects polls p1) = []
    ∧ (length (List.filter isHook (middleEffects polls p1)) ≤ 1)%nat
    ∧ (tr1 = []
       ∨ ∃ err, List.filter isStoreWrite tr1
                  = [UpdatePipelineBase (ID (Base p)) (Base p1) err]
                ∧ (tr1 = [UpdatePipelineBase (ID (Base p)) (Base p1) err]
                   ∨ tr1 = [UpdatePipelineBase (ID (Base p)) (Base p1) err;
                            Sleep (defaultRetryInterval pr)]))
    ∧ (tr3 = []
       ∨ ∃ err, List.filter isStoreWrite tr3
                  = [UpdatePipelineExtraByPipelineID (ID (Base p)) (PExtra p3) err]
                ∧ (tr3 = [UpdatePipelineExtraByPipelineID (ID (Base p)) (PExtra p3) err]
                   ∨ tr3 = [UpdatePipelineExtraByPipelineID (ID (Base p)) (PExtra p3) err;
                            Sleep (cfgRetryInterval pr)]))
    ∧ (length (List.filter isStoreWrite (tr1 ++ middleEffects polls p1 ++ tr3)) ≤ 2)%nat.
Proof.
  destruct (updateEndTime_shape fuel (defaultRetryInterval pr) now pr p w)
    as (p1 & tr1 & calls1 & polls1 & Hstep1 & Hcase1).
  set (w1 := mkWorld (store_calls w + calls1) (S (ctx_polls w + polls1)) (trace w ++ tr1)).
  destruct (markTeardown_shape fuel rutilDefaultRetryInterval pr p1
              (mkWorld (store_calls w1) (S (ctx_polls w1))
                 (trace w1 ++ middleEffects (ctx_polls w1) p1)))
    as (p3 & tr3 & calls3 & polls3 & Hstep3 & Hcase3).
  match type of Hstep3 with
  | _ = Some (_, ?w3) =>
      assert (Hrun : TeardownAfterReconcileDone (S (S fuel)) now pr p w = Some (p3, w3))
        by (eapply Teardown_steps; [exact Hstep1 | exact Hstep3])
  end.
  assert (Hid1 : ID (Base p1) = ID (Base p)).
  { destruct Hcase1 as [(-> & _) | (-> & _)]; done. }
  assert (Hmid : List.filter isStoreWrite (middleEffects (ctx_polls w1) p1) = []).
  { unfold middleEffects. by destruct (ctx_done (ctx_polls w1)). }
  assert (Hhook : (length (List.filter isHook (middleEffects (ctx_polls w1) p1)) ≤ 1)%nat).
  { unfold middleEffects. destruct (ctx_done (ctx_polls w1)); cbn; lia. }
  assert (H1 : tr1 = []
       ∨ ∃ err, List.filter isStoreWrite tr1
                  = [UpdatePipelineBase (ID (Base p)) (Base p1) err]
                ∧ (tr1 = [UpdatePipelineBase (ID (Base p)) (Base p1) err]
                   ∨ tr1 = [UpdatePipelineBase (ID (Base p)) (Base p1) err;
                            Sleep (defaultRetryInterval pr)])).
  { destruct Hcase1 as [(_ & -> & _) | (-> & _ & _ & _ & [(_ & _ & ->) | (e & _ & _ & ->)])];
      [by left | right; eexists; split; [done | by left]
      | right; eexists; split; [done | by right]]. }
  assert (H3 : tr3 = []
       ∨ ∃ err, List.filter isStoreWrite tr3
                  = [UpdatePipelineExtraByPipelineID (ID (Base p)) (PExtra p3) err]
                ∧ (tr3 = [UpdatePipelineExtraByPipelineID (ID (Base p)) (PExtra p3) err]
                   ∨ tr3 = [UpdatePipelineExtraByPipelineID (ID (Base p)) (PExtra p3) err;
                            Sleep (cfgRetryInterval pr)])).
  { rewrite <- Hid1.
    destruct Hcase3 as [(_ & -> & _) | (-> & _ & _ & _ & [(_ & _ & ->) | (e & _ & _ & ->)])];
      [by left | right; eexists; split; [done | by left]
      | right; eexists; split; [done | by right]]. }
  eexists p1, p3, _, tr1, tr3, (ctx_polls w1).
  split; [exact Hrun |]. split; [subst w1; cbn [trace ctx_polls]; by rewrite <- !app_assoc |].
  split; [done |]. split; [done |]. split; [done |]. split; [done |].
  rewrite !List.filter_app, Hmid, !length_app. cbn [length].
  destruct H1 as [-> | (e1 & -> & _)]; destruct H3 as [-> | (e3 & -> & _)]; cbn; lia.
Qed.

(** X15. Teardown of a pipeline that is already torn down ([TimeEnd] set and
    the teardown mark true) writes nothing to the store and returns the
    pipeline as it was, but it still notifies: metrics, the hook (unless the
    context is done), the compensator, the GC wait and the cache clearing are
    all done again. *)
Theorem teardown_of_finished_pipeline `{Externals} `{Environment}
    (fuel : nat) (now t : Time) (pr : defaultPipelineReconciler) (p : Pipeline)
    (w : World) :
  TimeEnd (Base p) = Some t →
  CompleteReconcilerTeardown (Extra (PExtra p)) = true →
  TeardownAfterReconcileDone (S (S fuel)) now pr p w
    = Some (p, mkWorld (store_calls w) (S (S (S (ctx_polls w))))
                 (trace w ++ middleEffects (S (ctx_polls w)) p)).
Proof.
  intros Hte Hmark.
  eapply (Teardown_steps fuel now pr p p p w
            (mkWorld (store_calls w) (S (ctx_polls w)) (trace w))).
  - rewrite ContinueWorking_updateEndTime, Hte. by destruct (ctx_done (ctx_polls w)).
  - rewrite ContinueWorking_markTeardown, Hmark. cbn [store_calls ctx_polls trace].
    by destruct (ctx_done (S (S (ctx_polls w)))).
Qed.

(** X16. Teardown never touches the pipeline's identity or status: [ID],
    [Status], [TimeBegin] and [Namespace] are on return what they were on
    entry, and [TimeEnd] and the teardown mark are never unset. *)
Theorem teardown_keeps_identity `{Externals} `{Environment}
    (fuel : nat) (now : Time) (pr : defaultPipelineReconciler) (p : Pipeline)
    (w : World) :
  ∃ p3 w3,
    TeardownAfterReconcileDone (S (S fuel)) now pr p w = Some (p3, w3)
    ∧ ID (Base p3) = ID (Base p)
    ∧ Status (Base p3) = Status (Base p)
    ∧ TimeBegin (Base p3) = TimeBegin (Base p)
    ∧ Namespace (Extra (PExtra p3)) = Namespace (Extra (PExtra p))
    ∧ (TimeEnd (Base p) ≠ None → Base p3 = Base p)
    ∧ (CompleteReconcilerTeardown (Extra (PExtra p)) = true → PExtra p3 = PExtra p).
Proof.
  destruct (updateEndTime_shape fuel (defaultRetryInterval pr) now pr p w)
    as (p1 & tr1 & calls1 & polls1 & Hstep1 & Hcase1).
  match type of Hstep1 with
  | _ = Some (_, ?w1) =>
      destruct (markTeardown_shape fuel rutilDefaultRetryInterval pr p1
                  (mkWorld (store_calls w1) (S (ctx_polls w1))
                     (trace w1 ++ middleEffects (ctx_polls w1) p1)))
        as (p3 & tr3 & calls3 & polls3 & Hstep3 & Hcase3)
  end.
  eexists p3, _. split; [eapply Teardown_steps; [exact Hstep1 | exact Hstep3] |].
  assert (H13 : Base p3 = Base p1
                ∧ Namespace (Extra (PExtra p3)) = Namespace (Extra (PExtra p1))
                ∧ (CompleteReconcilerTeardown (Extra (PExtra p1)) = true
                   → PExtra p3 = PExtra p1)).
  { destruct Hcase3 as [(-> & _) | (-> & _ & Hm & _)]; [done |].
    repeat split. congruence. }
  destruct H13 as (Hb & Hn & Hm).
  assert (H01 : ID (Base p1) = ID (Base p) ∧ Status (Base p1) = Status (Base p)
                ∧ TimeBegin (Base p1) = TimeBegin (Base p)
                ∧ PExtra p1 = PExtra p
                ∧ (TimeEnd (Base p) ≠ None → Base p1 = Base p)).
  { destruct Hcase1 as [(-> & _) | (-> & _ & Hte & _)]; [done |].
    repeat split. congruence. }
  destruct H01 as (Hid & Hst & Htb & Hex & Hfix).
  rewrite Hb, Hn. repeat split; try congruence.
  - intros Hte. by rewrite <- Hfix.
  - intros Hmark. rewrite <- Hex. apply Hm. by rewrite Hex.
Qed.

(** X17. With a healthy store and a live context, teardown of a pipeline that
    has no [TimeEnd] and no teardown mark does everything once and in order:
    it sets [TimeEnd] to now and [CostTimeSec] from it, writes the base row,
    spawns the metrics, runs the hook, notifies the compensator, the GC and
    the caches, sets the mark and writes it.  Exactly two store writes, both
    accepted, and no sleep. *)
Theorem teardown_happy_path `{Externals} `{Environment}
    (fuel : nat) (now : Time) (pr : defaultPipelineReconciler) (p : Pipeline)
    (w : World) :
  (∀ k, store_err k = None) →
  (∀ k, ctx_done k = false) →
  TimeEnd (Base p) = None →
  CompleteReconcilerTeardown (Extra (PExtra p)) = false →
  let p1 := ended now p in
  let p3 := setCompleteReconcilerTeardown p1 true in
  TeardownAfterReconcileDone (S (S fuel)) now pr p w
    = Some (p3, mkWorld (S (S (store_calls w))) (S (S (S (ctx_polls w))))
                  (trace w
                   ++ [UpdatePipelineBase (ID (Base p)) (Base p1) None;
                       GoPipelineCounterTotalAdd p1 1;
                       GoPipelineGaugeProcessingAdd p1 (-1);
                       GoPipelineEndEvent p1;
                       AopHandleAfterExec p1 (aop_err p1);
                       PipelineCronCompensate (ID (Base p));
                       WaitGC (Namespace (Extra (PExtra p))) (ID (Base p))
                         (GetResourceGCTTL p1);
                       ClearReconcilerPipelineContextCaches (ID (Base p));
                       UpdatePipelineExtraByPipelineID (ID (Base p)) (PExtra p3) None]))
    ∧ TimeEnd (Base p3) = Some now
    ∧ CostTimeSec (Base p3) = CalculatePipelineCostTimeSec (setTimeEnd p (Some now))
    ∧ CompleteReconcilerTeardown (Extra (PExtra p3)) = true.
Proof.
  intros Hstore Hctx Hte Hmark p1 p3. split; [| done].
  eapply (Teardown_steps fuel now pr p p1 p3 w
            (mkWorld (S (store_calls w)) (S (ctx_polls w))
               (trace w ++ [UpdatePipelineBase (ID (Base p)) (Base p1) None]))).
  - by rewrite ContinueWorking_updateEndTime, Hctx, Hte, Hstore.
  - rewrite ContinueWorking_markTeardown, Hctx. cbn [store_calls ctx_polls trace].
    change (CompleteReconcilerTeardown (Extra (PExtra p1)))
      with (CompleteReconcilerTeardown (Extra (PExtra p))).
    rewrite Hmark. cbn zeta. rewrite Hstore. unfold middleEffects. rewrite Hctx.
    cbn [app]. rewrite <- !app_assoc. done.
Qed.

(** X18. When the context is already done, teardown writes nothing to the
    store, does not run the hook and never sleeps; the pipeline is returned
    unchanged.  The metrics goroutines, the compensator, the GC wait and the
    cache clearing still happen: they are outside the retry steps. *)
Theorem teardown_with_done_context `{Externals} `{Environment}
    (fuel : nat) (now : Time) (pr : defaultPipelineReconciler) (p : Pipeline)
    (w : World) :
  (∀ k, (ctx_polls w ≤ k)%nat → ctx_done k = true) →
  TeardownAfterReconcileDone (S (S fuel)) now pr p w
    = Some (p, mkWorld (store_calls w) (S (S (S (ctx_polls w))))
                 (trace w
                  ++ [GoPipelineCounterTotalAdd p 1;
                      GoPipelineGaugeProcessingAdd p (-1);
                      GoPipelineEndEvent p;
                      PipelineCronCompensate (ID (Base p));
                      WaitGC (Namespace (Extra (PExtra p))) (ID (Base p))
                        (GetResourceGCTTL p);
                      ClearReconcilerPipelineContextCaches (ID (Base p))])).
Proof.
  intros Hctx.
  eapply (Teardown_steps fuel now pr p p p w
            (mkWorld (store_calls w) (S (ctx_polls w)) (trace w))).
  - by rewrite ContinueWorking_updateEndTime, Hctx.
  - rewrite ContinueWorking_markTeardown. cbn [store_calls ctx_polls trace].
    rewrite Hctx by lia. unfold middleEffects. rewrite Hctx by lia. done.
Qed.

Lemma app_same_prefix_nil {A : Type} (l t : list A) : l = (l ++ t)%list → t = [].
Proof.
  intros Heq. apply (f_equal length) in Heq. rewrite length_app in Heq.
  destruct t; [done | cbn in Heq; lia].
Qed.

(** X19. The hook's result is discarded.  Run teardown with the same store
    and context but any other answers of the hook: the returned pipeline,
    the number of store calls and of context polls, and the whole trace apart
    from the hook entry itself are the same. *)
Theorem teardown_ignores_hook_result `{Externals} (env : Environment)
    (aop' : Pipeline → option error)
    (fuel : nat) (now : Time) (pr : defaultPipelineReconciler) (p : Pipeline)
    (w : World) :
  let env' := {| store_err := @store_err env; ctx_done := @ctx_done env;
                 aop_err := aop' |} in
  ∃ p3 w3 w3',
    TeardownAfterReconcileDone (env := env) (S (S fuel)) now pr p w = Some (p3, w3)
    ∧ TeardownAfterReconcileDone (env := env') (S (S fuel)) now pr p w = Some (p3, w3')
    ∧ store_calls w3' = store_calls w3
    ∧ ctx_polls w3' = ctx_polls w3
    ∧ List.filter (λ e, negb (isHook e)) (trace w3')
      = List.filter (λ e, negb (isHook e)) (trace w3).
Proof.
  intros env'.
  destruct (updateEndTime_shape (env := env) fuel (defaultRetryInterval pr) now pr p w)
    as (p1 & tr1 & calls1 & polls1 & Hstep1 & _).
  assert (Hstep1' :
    ContinueWorking (env := env') (S (S fuel)) (defaultRetryInterval pr)
      (updateEndTime (env := env') now pr) p w
    = Some (p1, mkWorld (store_calls w + calls1) (S (ctx_polls w + polls1))
                  (trace w ++ tr1))).
  { rewrite <- Hstep1.
    rewrite (ContinueWorking_updateEndTime (env := env')),
            (ContinueWorking_updateEndTime (env := env)). done. }
  set (w1 := mkWorld (store_calls w + calls1) (S (ctx_polls w + polls1))
               (trace w ++ tr1)) in *.
  set (w2 := mkWorld (store_calls w1) (S (ctx_polls w1))
               (trace w1 ++ middleEffects (env := env) (ctx_polls w1) p1)).
  set (w2' := mkWorld (store_calls w1) (S (ctx_polls w1))
                (trace w1 ++ middleEffects (env := env') (ctx_polls w1) p1)).
  destruct (markTeardown_shape (env := env) fuel rutilDefaultRetryInterval pr p1 w2)
    as (p3 & tr3 & calls3 & polls3 & Hstep3 & _).
  assert (Hstep3' :
    ContinueWorking (env := env') (S (S fuel)) rutilDefaultRetryInterval
      (markTeardown (env := env') pr) p1 w2'
    = Some (p3, mkWorld (store_calls w2' + calls3) (S (ctx_polls w2' + polls3))
                  (trace w2' ++ tr3))).
  { rewrite (ContinueWorking_markTeardown (env := env)) in Hstep3.
    rewrite (ContinueWorking_markTeardown (env := env')).
    change (@ctx_done env') with (@ctx_done env).
    change (@store_err env') with (@store_err env).
    change (ctx_polls w2') with (ctx_polls w2).
    change (store_calls w2') with (store_calls w2).
    destruct (ctx_done (ctx_polls w2)).
    { injection Hstep3 as <- Hc Hp Ht. apply app_same_prefix_nil in Ht. subst tr3.
      assert (calls3 = 0%nat) as -> by lia. assert (polls3 = 0%nat) as -> by lia.
      by rewrite app_nil_r, !Nat.add_0_r. }
    destruct (CompleteReconcilerTeardown (Extra (PExtra p1))).
    { injection Hstep3 as <- Hc Hp Ht. apply app_same_prefix_nil in Ht. subst tr3.
      assert (calls3 = 0%nat) as -> by lia. assert (polls3 = 0%nat) as -> by lia.
      by rewrite app_nil_r, !Nat.add_0_r. }
    cbn zeta in *. destruct (store_err (store_calls w2)).
    - injection Hstep3 as <- Hc Hp Ht. apply app_inv_head in Ht. subst tr3.
      assert (calls3 = 1%nat) as -> by lia. assert (polls3 = 1%nat) as -> by lia.
      by rewrite !Nat.add_1_r.
    - injection Hstep3 as <- Hc Hp Ht. apply app_inv_head in Ht. subst tr3.
      assert (calls3 = 1%nat) as -> by lia. assert (polls3 = 0%nat) as -> by lia.
      by rewrite Nat.add_1_r, Nat.add_0_r. }
  eexists p3, _, _.
  split; [exact (Teardown_steps (env := env) fuel now pr p p1 p3 w w1 _ Hstep1 Hstep3) |].
  split; [exact (Teardown_steps (env := env') fuel now pr p p1 p3 w w1 _ Hstep1' Hstep3') |].
  split; [done |]. split; [done |].
  cbn [trace]. subst w2 w2'. cbn [trace]. rewrite !List.filter_app. do 2 f_equal.
  unfold middleEffects. change (@ctx_done env') with (@ctx_done env).
  by destruct (ctx_done (ctx_polls w1)).
Qed.

(** ** The cluster endpoints *)

Section EndpointsProperties.

Import endpoints.

Lemma listClustersFrom_ok (e : Endpoints) (scopeID : N) (clusterTypes : list string) :
  ∀ (clusters cs : list ClusterInfo),
    listClustersFrom e scopeID clusterTypes clusters = Ok cs
    ↔ ∃ answers,
        Forall2 (λ typ c, bdlListClusters e typ scopeID = Ok c) clusterTypes answers
        ∧ cs = (clusters ++ concat answers)%list.
Proof.
  induction clusterTypes as [| typ rest IH]; intros clusters cs; cbn [listClustersFrom].
  - split.
    + intros [= <-]. exists []. split; [constructor | by rewrite app_nil_r].
    + intros (answers & Hall & ->). apply Forall2_nil_inv_l in Hall as ->.
      by rewrite app_nil_r.
  - destruct (bdlListClusters e typ scopeID) as [c | err] eqn:Hc.
    + rewrite IH. split.
      * intros (answers & Hall & ->). exists (c :: answers).
        split; [by constructor | by rewrite <- app_assoc].
      * intros (answers & Hall & ->).
        apply Forall2_cons_inv_l in Hall as (c' & answers' & Hc' & Hall & ->).
        rewrite Hc in Hc'. injection Hc' as <-.
        exists answers'. split; [done | by rewrite <- app_assoc].
    + split; [done |]. intros (answers & Hall & _).
      apply Forall2_cons_inv_l in Hall as (c' & answers' & Hc' & _). congruence.
Qed.

Lemma listClustersFrom_err (e : Endpoints) (scopeID : N) (clusterTypes : list string) :
  ∀ (clusters : list ClusterInfo) (msg : error),
    listClustersFrom e scopeID clusterTypes clusters = Err msg
    ↔ ∃ before typ after err,
        clusterTypes = (before ++ typ :: after)%list
        ∧ Forall (λ t, ∃ c, bdlListClusters e t scopeID = Ok c) before
        ∧ bdlListClusters e typ scopeID = Err err
        ∧ msg = "failed to list " +:+ typ +:+ " clusters, " +:+ err.
Proof.
  induction clusterTypes as [| typ rest IH]; intros clusters msg; cbn [listClustersFrom].
  - split; [done |]. intros (before & typ & after & err & Heq & _).
    by destruct before.
  - destruct (bdlListClusters e typ scopeID) as [c | err] eqn:Hc.
    + rewrite IH. split.
      * intros (before & typ' & after & err & -> & Hall & Herr & ->).
        exists (typ :: before), typ', after, err. repeat split; [| done].
        constructor; [by exists c | done].
      * intros (before & typ' & after & err & Heq & Hall & Herr & ->).
        destruct before as [| t before]; cbn in Heq; injection Heq as <- ->.
        { congruence. }
        apply Forall_cons in Hall as [_ Hall].
        by exists before, typ', after, err.
    + split.
      * intros [= <-]. by exists [], typ, rest, err.
      * intros (before & typ' & after & err' & Heq & Hall & Herr & ->).
        destruct before as [| t before]; cbn in Heq; injection Heq as <- ->.
        { congruence. }
        apply Forall_cons in Hall as [(c & Hok) _]. congruence.
Qed.

Lemma clusterNames_spec (clusters : list ClusterInfo) (n : string) :
  n ∈ clusterNames clusters ↔ n ∈ Name <$> clusters.
Proof.
  unfold clusterNames.
  enough (Hgen : ∀ (m : gset string),
            n ∈ fold_left (λ (m : gset string) cluster, {[ Name cluster ]} ∪ m) clusters m
            ↔ n ∈ m ∨ n ∈ Name <$> clusters).
  { rewrite Hgen. set_solver. }
  induction clusters as [| c clusters IH]; intros m; cbn [fold_left fmap list_fmap].
  - set_solver.
  - rewrite IH. set_solver.
Qed.

Lemma keepInOrg_spec (clustersInOrg : gset string) (names : list string) :
  keepInOrg clustersInOrg names
  = List.filter (λ n, bool_decide (n ∈ clustersInOrg)) names.
Proof.
  unfold keepInOrg.
  enough (Hgen : ∀ acc,
            fold_left (λ (acc : list string) cluster,
                         if decide (cluster ∈ clustersInOrg)
                         then (acc ++ [cluster])%list else acc) names acc
            = (acc ++ List.filter (λ n, bool_decide (n ∈ clustersInOrg)) names)%list).
  { by rewrite Hgen. }
  induction names as [| n names IH]; intros acc; cbn [fold_left List.filter].
  - by rewrite app_nil_r.
  - rewrite IH. destruct (decide (n ∈ clustersInOrg)) as [Hin | Hout].
    + rewrite bool_decide_eq_true_2 by done. by rewrite <- app_assoc.
    + rewrite bool_decide_eq_false_2 by done. done.
Qed.

End EndpointsProperties.

(** X20. [listClusters] succeeds exactly when the bundle answers every
    cluster type, and then returns the answers concatenated in the order of
    the types. *)
Theorem listClusters_ok_iff (e : endpoints.Endpoints) (scopeID : N)
    (clusterTypes : list string) (cs : list endpoints.ClusterInfo) :
  endpoints.listClusters e scopeID clusterTypes = Ok cs
  ↔ ∃ answers,
      Forall2 (λ typ c, endpoints.bdlListClusters e typ scopeID = Ok c)
              clusterTypes answers
      ∧ cs = concat answers.
Proof. unfold endpoints.listClusters. by rewrite listClustersFrom_ok. Qed.

(** X21. [listClusters] fails exactly at the first cluster type the bundle
    refuses: the types before it were answered, the types after it are not
    asked for in the message, and the error reads
    [failed to list <typ> clusters, <the bundle's error>]. *)
Theorem listClusters_err_iff (e : endpoints.Endpoints) (scopeID : N)
    (clusterTypes : list string) (msg : error) :
  endpoints.listClusters e scopeID clusterTypes = Err msg
  ↔ ∃ before typ after err,
      clusterTypes = (before ++ typ :: after)%list
      ∧ Forall (λ t, ∃ c, endpoints.bdlListClusters e t scopeID = Ok c) before
      ∧ endpoints.bdlListClusters e typ scopeID = Err err
      ∧ msg = "failed to list " +:+ typ +:+ " clusters, " +:+ err.
Proof. unfold endpoints.listClusters. by rewrite listClustersFrom_err. Qed.

(** X22. When the org id parses and the bundle answers for both [k8s] and
    [edas], [ListK8SClusters] reports success, and [Ready] and [UnReady] are
    the aggregator's ready and unready clusters, in the aggregator's order and
    with its repetitions, restricted to the names of the org's k8s and edas
    clusters. *)
Theorem ListK8SClusters_keeps_org_clusters (ParseUint : string → option N)
    (e : endpoints.Endpoints) (orgid : string) (scopeID : N)
    (k8s edas : list endpoints.ClusterInfo) (ready unready : list string) :
  ParseUint orgid = Some scopeID →
  endpoints.bdlListClusters e "k8s" scopeID = Ok k8s →
  endpoints.bdlListClusters e "edas" scopeID = Ok edas →
  endpoints.steveListClusters e = (ready, unready) →
  let inOrg := λ n, bool_decide (n ∈ endpoints.Name <$> (k8s ++ edas)%list) in
  endpoints.ListK8SClusters ParseUint e orgid
  = endpoints.mkK8SClusters (endpoints.mkHeader true endpoints.noError)
      (endpoints.mkClustersData (List.filter inOrg ready) (List.filter inOrg unready)).
Proof.
  intros Hparse Hk8s Hedas Hsteve inOrg.
  unfold endpoints.ListK8SClusters, endpoints.listClusters. rewrite Hparse.
  cbn [endpoints.listClustersFrom]. rewrite Hk8s, Hedas, Hsteve. cbn [app].
  rewrite !keepInOrg_spec. do 2 f_equal; apply List.filter_ext; intros n;
    subst inOrg; cbn beta; apply bool_decide_ext, clusterNames_spec.
Qed.

(** X23. [ListK8SClusters] reports success exactly when the org id parses and
    the bundle answers for both [k8s] and [edas].  Otherwise the response
    carries no clusters at all, whatever the aggregator knows, and its message
    names what failed: the header, or the first cluster type the bundle
    refused together with the bundle's error. *)
Theorem ListK8SClusters_failure (ParseUint : string → option N)
    (e : endpoints.Endpoints) (orgid : string) :
  let resp := endpoints.ListK8SClusters ParseUint e orgid in
  (endpoints.Success (endpoints.RespHeader resp) = true
   ↔ ∃ scopeID k8s edas,
       ParseUint orgid = Some scopeID
       ∧ endpoints.bdlListClusters e "k8s" scopeID = Ok k8s
       ∧ endpoints.bdlListClusters e "edas" scopeID = Ok edas)
  ∧ (endpoints.Success (endpoints.RespHeader resp) = false →
     endpoints.Data resp = endpoints.noData
     ∧ (ParseUint orgid = None
        ∧ endpoints.Msg (endpoints.Error (endpoints.RespHeader resp))
          = "failed to get org-id in http header"
        ∨ ∃ scopeID err,
            ParseUint orgid = Some scopeID
            ∧ (endpoints.bdlListClusters e "k8s" scopeID = Err err
               ∧ endpoints.Msg (endpoints.Error (endpoints.RespHeader resp))
                 = "failed to list cluster, failed to list k8s clusters, " +:+ err
               ∨ (∃ k8s, endpoints.bdlListClusters e "k8s" scopeID = Ok k8s)
                 ∧ endpoints.bdlListClusters e "edas" scopeID = Err err
                 ∧ endpoints.Msg (endpoints.Error (endpoints.RespHeader resp))
                   = "failed to list cluster, failed to list edas clusters, " +:+ err))).
Proof.
  intros resp. subst resp.
  unfold endpoints.ListK8SClusters, endpoints.listClusters.
  destruct (ParseUint orgid) as [scopeID |] eqn:Hparse.
  2:{ split; [split; [done | by intros (? & ? & ? & ? & _)] |].
      intros _. split; [done | by left]. }
  cbn [endpoints.listClustersFrom].
  destruct (endpoints.bdlListClusters e "k8s" scopeID) as [k8s | err] eqn:Hk8s.
  2:{ split; [split; [done | by intros (? & ? & ? & [= <-] & ? & _); congruence] |].
      intros _. split; [done |]. right. exists scopeID, err. split; [done |]. by left. }
  destruct (endpoints.bdlListClusters e "edas" scopeID) as [edas | err] eqn:Hedas.
  2:{ split; [split; [done | by intros (? & ? & ? & [= <-] & ? & ?); congruence] |].
      intros _. split; [done |]. right. exists scopeID, err. split; [done |].
      right. split; [by exists k8s | done]. }
  destruct (endpoints.steveListClusters e) as [ready unready].
  split; [| done]. split; [| done]. intros _. by exists scopeID, k8s, edas.
Qed.

(** ** The further properties on runs *)

(** X1 on a run: the planner offers a task, the reconciler is canceling. *)
Lemma GetTasks_while_canceling_witness :
  let sn := Demo.snapshot [Demo.task "a" "Born"] [Demo.task "a" "Born"] [] in
  let pr := Demo.reconciler "Running" true (Some true) in
  let p := Demo.pipeline "Running" in
  @GetTasksCanBeConcurrentlyScheduled sn pr p = (Ok [], pr).
Proof.
  intros sn pr p.
  destruct (GetTasks_while_canceling sn pr p (fun _ _ => Ok []) eq_refl)
    as (Hpr & [(allTasks & _ & Hout) | (e & Hm & _)] & _); [| discriminate Hm].
  rewrite (surjective_pairing (GetTasksCanBeConcurrentlyScheduled sn pr p)).
  rewrite Hpr, Hout. reflexivity.
Defined.

(** X2 on a run: the planner fails. *)
Lemma GetTasks_error_leaves_reconciler_witness :
  let sn := mkSnapshot (fun _ => Ok [Demo.task "a" "Born"])
              (fun _ _ => Err "planner: cycle") (fun _ => Ok []) in
  let pr := Demo.reconciler "Running" false (Some true) in
  snd (GetTasksCanBeConcurrentlyScheduled sn pr (Demo.pipeline "Running")) = pr.
Proof.
  intros sn pr.
  exact (proj1 (GetTasks_error_leaves_reconciler sn pr (Demo.pipeline "Running")
                  "planner: cycle" eq_refl)).
Defined.

(** X3 on a run: the planner names a, b and a again; b is being processed. *)
Lemma GetTasks_returns_the_unprocessed_witness :
  let ready := [Demo.task "a" "Born"; Demo.task "b" "Born"; Demo.task "a" "Born"] in
  let sn := Demo.snapshot ready ready [] in
  let pr := setProcessingTasks (Demo.reconciler "Running" false (Some true)) {[ "b" ]} in
  ∃ out,
    fst (GetTasksCanBeConcurrentlyScheduled sn pr (Demo.pipeline "Running")) = Ok out
    ∧ sublist out ready
    ∧ NoDup (Name <$> out).
Proof.
  intros ready sn pr.
  destruct (GetTasks_returns_the_unprocessed sn pr (Demo.pipeline "Running")
              ready ready eq_refl eq_refl eq_refl)
    as (out & Hrun & Hsub & Hnd & _).
  exists out. rewrite Hrun. exact (conj eq_refl (conj Hsub Hnd)).
Defined.

(** X4 on a run: the second call on the same answers. *)
Lemma GetTasks_again_returns_nothing_witness :
  let ready := [Demo.task "a" "Born"; Demo.task "b" "Born"] in
  let sn := Demo.snapshot ready ready [] in
  let pr := Demo.reconciler "Running" false (Some true) in
  let pr' := snd (GetTasksCanBeConcurrentlyScheduled sn pr (Demo.pipeline "Running")) in
  GetTasksCanBeConcurrentlyScheduled sn pr' (Demo.pipeline "Running") = (Ok [], pr').
Proof.
  intros ready sn pr pr'.
  exact (GetTasks_again_returns_nothing sn pr pr' (Demo.pipeline "Running") ready eq_refl).
Defined.

(** X6 on a run: the flag is known, the merger later answers with no task. *)
Lemma flagHaveTask_memoized_witness :
  let sn := Demo.snapshot [] [] [] in
  let p := Demo.pipeline "Running" in
  flagHaveTask
    (fst (@runOperations Demo.externals
            [OpCalculatePipelineStatusByAllReconciledTasks sn p; OpCancelReconcile p;
             OpGetTasksCanBeConcurrentlyScheduled sn p;
             OpCalculatePipelineStatusByAllReconciledTasks sn p]
            (Demo.reconciler "Running" false (Some true))))
  = Some true.
Proof.
  intros sn p.
  exact (@flagHaveTask_memoized Demo.externals
           [OpCalculatePipelineStatusByAllReconciledTasks sn p; OpCancelReconcile p;
            OpGetTasksCanBeConcurrentlyScheduled sn p;
            OpCalculatePipelineStatusByAllReconciledTasks sn p]
           (Demo.reconciler "Running" false (Some true)) true eq_refl).
Defined.

(** X7 on a run: the merger answers, the listing fails. *)
Lemma calculate_error_keeps_aggregate_witness :
  let sn := mkSnapshot (fun _ => Ok [Demo.task "a" "Born"]) (fun _ _ => Ok [])
              (fun _ => Err "store: timeout") in
  let pr := Demo.reconciler "Running" false None in
  let pr' := snd (@calculatePipelineStatusByAllReconciledTasks Demo.externals sn pr
                    (Demo.pipeline "Running")) in
  calculatedPipelineStatusByAllReconciledTasks pr' = "Running"
  ∧ flagHaveTask pr' = Some true.
Proof.
  intros sn pr pr'.
  destruct (@calculate_error_keeps_aggregate Demo.externals sn pr pr'
              (Demo.pipeline "Running") "store: timeout" eq_refl)
    as (Hagg & _).
  exact (conj Hagg eq_refl).
Defined.

(** X8 on a run: one row, failed. *)
Lemma calculate_is_the_reduction_witness :
  let rows := [Demo.task "a" "Failed"] in
  let sn := Demo.snapshot rows [] rows in
  let pr := Demo.reconciler "Running" false None in
  calculatedPipelineStatusByAllReconciledTasks
    (snd (@calculatePipelineStatusByAllReconciledTasks Demo.externals sn pr
            (Demo.pipeline "Running")))
  = "Failed".
Proof.
  intros rows sn pr.
  assert (Hrows : rows ≠ []) by discriminate.
  exact (@calculate_is_the_reduction Demo.externals sn pr
           (snd (@calculatePipelineStatusByAllReconciledTasks Demo.externals sn pr
                   (Demo.pipeline "Running")))
           (Demo.pipeline "Running") rows eq_refl eq_refl eq_refl (or_introl Hrows)).
Defined.

(** X9 on a run: the same rows aggregated twice. *)
Lemma calculate_idempotent_witness :
  let rows := [Demo.task "a" "Success"] in
  let sn := Demo.snapshot rows [] rows in
  let pr := Demo.reconciler "Running" false None in
  let pr' := snd (@calculatePipelineStatusByAllReconciledTasks Demo.externals sn pr
                    (Demo.pipeline "Running")) in
  @calculatePipelineStatusByAllReconciledTasks Demo.externals sn pr'
    (Demo.pipeline "Running") = (None, pr').
Proof.
  intros rows sn pr pr'.
  exact (@calculate_idempotent Demo.externals sn pr pr' (Demo.pipeline "Running") eq_refl).
Defined.

(** X10 on a run: the aggregate is Failed, the pipeline is Running. *)
Lemma update_with_terminal_aggregate_ends_reconcile_witness :
  let sn := Demo.snapshot [Demo.task "a" "Failed"] [] [Demo.task "a" "Failed"] in
  let pr := Demo.reconciler "Failed" false (Some true) in
  let p' := setStatus (Demo.pipeline "Running") "Failed" in
  @IsReconcileDone Demo.externals p' = true.
Proof.
  intros sn pr p'.
  destruct (@update_with_terminal_aggregate_ends_reconcile Demo.externals
              (Demo.environment []) sn sn pr (Demo.pipeline "Running") p'
              emptyWorld
              (mkWorld 1 0 [UpdatePipelineBaseStatus 1%N "Failed" None;
                            EmitPipelineInstanceEvent p' "user"])
              eq_refl eq_refl)
    as (_ & _ & Hdone & _).
  exact Hdone.
Defined.

(** X12 on a run: the store refuses once, then accepts. *)
Lemma prepare_fires_one_trigger_last_witness :
  let env := Demo.environment [0%nat] in
  let pr := Demo.reconciler "" false None in
  let p := Demo.pipeline "Queued" in
  let p' := setStatus p PipelineStatusRunning in
  ∃ tr,
    [UpdatePipelineBaseStatus 1%N "Running" (Some "store: connection refused");
     Sleep 3%Z;
     UpdatePipelineBaseStatus 1%N "Running" None;
     EmitPipelineInstanceEvent p' "user";
     GoTriggerNextLoop] = (tr ++ [GoTriggerNextLoop])%list
    ∧ List.filter isTrigger tr = [].
Proof.
  intros env pr p p'.
  destruct (@prepare_fires_one_trigger_last Demo.externals env 2 pr p p' emptyWorld
              (mkWorld 2 0
                 [UpdatePipelineBaseStatus 1%N "Running" (Some "store: connection refused");
                  Sleep 3%Z;
                  UpdatePipelineBaseStatus 1%N "Running" None;
                  EmitPipelineInstanceEvent p' "user";
                  GoTriggerNextLoop])
              eq_refl)
    as (tr & Htr & Hnone & _).
  exists tr. exact (conj Htr Hnone).
Defined.

(** X13 on a run: a queued pipeline prepared twice. *)
Lemma prepare_again_only_triggers_witness :
  let env := Demo.environment [] in
  let pr := Demo.reconciler "" false None in
  let p' := setStatus (Demo.pipeline "Queued") PipelineStatusRunning in
  let w' := mkWorld 1 0 [UpdatePipelineBaseStatus 1%N "Running" None;
                         EmitPipelineInstanceEvent p' "user";
                         GoTriggerNextLoop] in
  @PrepareBeforeReconcile Demo.externals env 0 pr p' w' =
    Some (p', mkWorld 1 0 (trace w' ++ [GoTriggerNextLoop])).
Proof.
  intros env pr p' w'.
  exact (@prepare_again_only_triggers Demo.externals env 1 0 pr (Demo.pipeline "Queued")
           p' emptyWorld w' eq_refl eq_refl).
Defined.

(** X15 on a run: a pipeline torn down before. *)
Lemma teardown_of_finished_pipeline_witness :
  let p := setCompleteReconcilerTeardown
             (setTimeEnd (Demo.pipeline "Success") (Some 150%Z)) true in
  @TeardownAfterReconcileDone Demo.externals (Demo.environment []) 2 200%Z
    (Demo.reconciler "Success" false (Some true)) p emptyWorld
  = Some (p, mkWorld 0 3
               [GoPipelineCounterTotalAdd p 1; GoPipelineGaugeProcessingAdd p (-1);
                GoPipelineEndEvent p; AopHandleAfterExec p None;
                PipelineCronCompensate 1%N; WaitGC "pipeline-1" 1%N 1800%N;
                ClearReconcilerPipelineContextCaches 1%N]).
Proof.
  intros p.
  exact (@teardown_of_finished_pipeline Demo.externals (Demo.environment []) 0 200%Z
           150%Z (Demo.reconciler "Success" false (Some true)) p emptyWorld
           eq_refl eq_refl).
Defined.

(** X17 on scenario S1's end: the store is healthy, the pipeline began at 100
    and is torn down at 200. *)
Lemma teardown_happy_path_witness :
  let p := Demo.pipeline "Success" in
  ∃ p3 w3,
    @TeardownAfterReconcileDone Demo.externals (Demo.environment []) 2 200%Z
      (Demo.reconciler "Success" false (Some true)) p emptyWorld = Some (p3, w3)
    ∧ TimeEnd (Base p3) = Some 200%Z
    ∧ CostTimeSec (Base p3) = 100%Z
    ∧ CompleteReconcilerTeardown (Extra (PExtra p3)) = true
    ∧ store_calls w3 = 2%nat.
Proof.
  intros p.
  destruct (@teardown_happy_path Demo.externals (Demo.environment []) 0 200%Z
              (Demo.reconciler "Success" false (Some true)) p emptyWorld
              (fun _ => eq_refl) (fun _ => eq_refl) eq_refl eq_refl)
    as (Hrun & Hte & Hcost & Hmark).
  eexists _, _. split; [exact Hrun |].
  exact (conj Hte (conj Hcost (conj Hmark eq_refl))).
Defined.

(** X18 on a run: the context is done from the start. *)
Lemma teardown_with_done_context_witness :
  let env := {| store_err := fun _ => None; ctx_done := fun _ => true;
                aop_err := fun _ => None |} in
  let p := Demo.pipeline "StopByUser" in
  @TeardownAfterReconcileDone Demo.externals env 2 200%Z
    (Demo.reconciler "StopByUser" true (Some true)) p emptyWorld
  = Some (p, mkWorld 0 3
               [GoPipelineCounterTotalAdd p 1; GoPipelineGaugeProcessingAdd p (-1);
                GoPipelineEndEvent p;
                PipelineCronCompensate 1%N; WaitGC "pipeline-1" 1%N 1800%N;
                ClearReconcilerPipelineContextCaches 1%N]).
Proof.
  intros env p.
  exact (@teardown_with_done_context Demo.externals env 0 200%Z
           (Demo.reconciler "StopByUser" true (Some true)) p emptyWorld
           (fun _ _ => eq_refl)).
Defined.

(** X22 on a run: the org has clusters dev (k8s) and prod (edas); the
    aggregator knows dev, other and prod. *)
Lemma ListK8SClusters_keeps_org_clusters_witness :
  let e := endpoints.mkEndpoints
             (fun typ _ => if String.eqb typ "k8s"
                           then Ok [endpoints.mkClusterInfo "dev"]
                           else Ok [endpoints.mkClusterInfo "prod"])
             (["dev"; "other"], ["prod"; "other"]) in
  let inOrg := fun n => bool_decide (n ∈ ["dev"; "prod"]) in
  endpoints.ListK8SClusters (fun _ => Some 7%N) e "7"
  = endpoints.mkK8SClusters (endpoints.mkHeader true endpoints.noError)
      (endpoints.mkClustersData (List.filter inOrg ["dev"; "other"])
                                (List.filter inOrg ["prod"; "other"])).
Proof.
  intros e inOrg.
  exact (ListK8SClusters_keeps_org_clusters (fun _ => Some 7%N) e "7" 7%N
           [endpoints.mkClusterInfo "dev"] [endpoints.mkClusterInfo "prod"]
           ["dev"; "other"] ["prod"; "other"] eq_refl eq_refl eq_refl eq_refl).
Defined.
